(** * MediGenie chat front-end: response parsing and conversation control

    A shallow embedding of the parsing and state-handling code of the
    chat application (App component, ChatMessage component, ChatInput
    component, geminiService) together with the properties that the
    specification states about them.

    JavaScript strings are sequences of UTF-16 code units; they are
    modelled as [list N].  Every library routine the source calls
    (String.prototype.indexOf, substring, trim, split, match, JSON.parse,
    ...) is written out below following ECMA-262. *)

From Stdlib Require Import List NArith ZArith Bool Ascii String Lia PeanoNat.
From Stdlib Require Import DecimalString.
Import ListNotations.

Set Implicit Arguments.
Set Warnings "-register-all".

(* ================================================================== *)
(** ** JavaScript strings *)
(* ================================================================== *)

Module JS.

Definition jsstring := list N.

(** [lit] turns an ASCII literal into its code units; [litq] does the
    same and reads a grave accent as a quotation mark (U+0022), so that
    JSON texts can be written legibly. *)
Definition lit (s : string) : jsstring :=
  map N_of_ascii (list_ascii_of_string s).

Definition litq (s : string) : jsstring :=
  map (fun c => if N.eqb c 96 then 34%N else c) (lit s).

Definition LF : N := 10.

Fixpoint eqb (a b : jsstring) : bool :=
  match a, b with
  | [], [] => true
  | x :: a', y :: b' => N.eqb x y && eqb a' b'
  | _, _ => false
  end.

Definition len (s : jsstring) : Z := Z.of_nat (List.length s).

(** The empty string is the only falsy string. *)
Definition truthy (s : jsstring) : bool :=
  match s with [] => false | _ => true end.

Fixpoint startsWith (p s : jsstring) : bool :=
  match p, s with
  | [], _ => true
  | x :: p', y :: s' => N.eqb x y && startsWith p' s'
  | _ :: _, [] => false
  end.

Definition endsWith (p s : jsstring) : bool :=
  startsWith (rev p) (rev s).

(** [indexOf] and [lastIndexOf] return -1 when the needle is absent. *)
Fixpoint indexOf_from (needle s : jsstring) (i : Z) : Z :=
  if startsWith needle s then i
  else match s with
       | [] => (-1)%Z
       | _ :: t => indexOf_from needle t (i + 1)
       end.

Definition indexOf (needle s : jsstring) : Z := indexOf_from needle s 0.

Fixpoint lastIndexOf_from (needle s : jsstring) (i : Z) : Z :=
  match s with
  | [] => if startsWith needle [] then i else (-1)%Z
  | _ :: t =>
      let r := lastIndexOf_from needle t (i + 1) in
      if Z.eqb r (-1) then (if startsWith needle s then i else (-1)%Z) else r
  end.

Definition lastIndexOf (needle s : jsstring) : Z := lastIndexOf_from needle s 0.

Definition includes (needle s : jsstring) : bool :=
  negb (Z.eqb (indexOf needle s) (-1)).

(** [substring start end]: both bounds are clamped to [0, length] and
    swapped when out of order. *)
Definition clamp (s : jsstring) (i : Z) : Z := Z.min (Z.max i 0) (len s).

Definition substring (s : jsstring) (a b : Z) : jsstring :=
  let a' := clamp s a in
  let b' := clamp s b in
  let lo := Z.min a' b' in
  let hi := Z.max a' b' in
  firstn (Z.to_nat (hi - lo)) (skipn (Z.to_nat lo) s).

(** [substring start] without an end bound. *)
Definition substringFrom (s : jsstring) (a : Z) : jsstring :=
  substring s a (len s).

(** [slice start end]: negative bounds count from the end; an empty
    string results when the bounds are out of order. *)
Definition slice (s : jsstring) (a b : Z) : jsstring :=
  let rel i := if Z.ltb i 0 then Z.max (len s + i) 0 else Z.min i (len s) in
  let lo := rel a in
  let hi := rel b in
  firstn (Z.to_nat (Z.max (hi - lo) 0)) (skipn (Z.to_nat lo) s).

(** WhiteSpace and LineTerminator code points of ECMA-262; they are what
    [trim] strips and what the regular-expression class [\s] matches. *)
Definition isLineTerminator (c : N) : bool :=
  N.eqb c 10 || N.eqb c 13 || N.eqb c 8232 || N.eqb c 8233.

Definition isWhiteSpace (c : N) : bool :=
  N.eqb c 9 || N.eqb c 11 || N.eqb c 12 || N.eqb c 32 || N.eqb c 160
  || N.eqb c 5760 || (N.leb 8192 c && N.leb c 8202)
  || N.eqb c 8239 || N.eqb c 8287 || N.eqb c 12288 || N.eqb c 65279.

Definition isSpace (c : N) : bool := isWhiteSpace c || isLineTerminator c.

Definition isDigit (c : N) : bool := N.leb 48 c && N.leb c 57.

Fixpoint trimStart (s : jsstring) : jsstring :=
  match s with
  | c :: t => if isSpace c then trimStart t else s
  | [] => []
  end.

Definition trimEnd (s : jsstring) : jsstring := rev (trimStart (rev s)).

Definition trim (s : jsstring) : jsstring := trimEnd (trimStart s).

(** [toLowerCase].  Basic Latin capitals are mapped to their small
    letters.  Outside Basic Latin only the two code points whose lower
    case contains a Basic Latin letter are mapped (U+0130 to i followed
    by U+0307, U+212A to k); every other code unit is kept.  The source
    only ever searches the result for a needle of Basic Latin letters
    and spaces, and for that search this agrees with the full Unicode
    mapping, which sends the remaining code points outside Basic Latin
    to code points outside Basic Latin. *)
Definition lowerUnit (c : N) : jsstring :=
  if N.leb 65 c && N.leb c 90 then [(c + 32)%N]
  else if N.eqb c 304 then [105; 775]%N
  else if N.eqb c 8490 then [107]%N
  else [c].

Definition toLowerCase (s : jsstring) : jsstring := flat_map lowerUnit s.

(** Decimal rendering of a non-negative integer, as in a template
    literal that interpolates [Date.now()]. *)
Definition ofNumber (n : N) : jsstring :=
  lit (NilZero.string_of_uint (N.to_uint n)).

End JS.

(* ================================================================== *)
(** ** Regular expressions (backtracking semantics of ECMA-262) *)
(* ================================================================== *)

Module RegExp.
Import JS.

(** The fragment of the pattern language the source uses: literal
    characters, the classes [\s] and [\d], the dot, sequencing,
    alternation, greedy and lazy repetition with a lower bound, capture
    groups, positive lookahead and the start anchor. *)
Inductive regex : Type :=
| Empty
| Chr (c : N)
| Space                      (* \s *)
| Digit                      (* \d *)
| Dot                        (* .  *)
| Seq (r1 r2 : regex)
| Alt (r1 r2 : regex)
| Rep (min : nat) (greedy : bool) (r : regex)
| Group (i : nat) (r : regex)
| Look (r : regex)           (* (?= r) *)
| Bol.                       (* ^ without the multiline flag *)

Definition Str (s : string) : regex :=
  fold_right (fun c r => Seq (Chr c) r) Empty (lit s).

Definition StarLazy (r : regex) : regex := Rep 0 false r.   (* r*? *)
Definition Star (r : regex) : regex := Rep 0 true r.        (* r*  *)
Definition Plus (r : regex) : regex := Rep 1 true r.        (* r+  *)

(** A match state: the end index, the input that is left from there,
    and the captures recorded so far as (group, start, end). *)
Record state : Type := mkMatchState {
  endIndex : nat;
  rest : jsstring;
  captures : list (nat * (nat * nat))
}.

Definition continuation := state -> option state.
Definition matcher := state -> continuation -> option state.

Definition step1 (p : N -> bool) : matcher := fun x c =>
  match rest x with
  | ch :: t => if p ch then c (mkMatchState (S (endIndex x)) t (captures x)) else None
  | [] => None
  end.

(** RepeatMatcher with no upper bound.  An iteration that consumes
    nothing once the lower bound is met is refused, so at most
    [min + length (rest x)] iterations can succeed; [fuel] is that
    number plus one.  No pattern of the source has a group inside a
    repetition, so there are no captures to reset between iterations. *)
Fixpoint repeatMatcher (fuel : nat) (m : matcher) (min : nat) (greedy : bool)
    (x : state) (c : continuation) : option state :=
  match fuel with
  | O => None
  | S fuel' =>
      let d : continuation := fun y =>
        if Nat.eqb min 0 && Nat.eqb (endIndex y) (endIndex x) then None
        else repeatMatcher fuel' m (Nat.pred min) greedy y c in
      if negb (Nat.eqb min 0) then m x d
      else if greedy then
        match m x d with Some z => Some z | None => c x end
      else
        match c x with Some z => Some z | None => m x d end
  end.

Fixpoint compile (dotAll : bool) (r : regex) : matcher :=
  match r with
  | Empty => fun x c => c x
  | Chr k => step1 (N.eqb k)
  | Space => step1 isSpace
  | Digit => step1 isDigit
  | Dot => step1 (fun ch => dotAll || negb (isLineTerminator ch))
  | Seq r1 r2 => fun x c => compile dotAll r1 x (fun y => compile dotAll r2 y c)
  | Alt r1 r2 => fun x c =>
      match compile dotAll r1 x c with
      | Some z => Some z
      | None => compile dotAll r2 x c
      end
  | Rep min greedy r' => fun x c =>
      repeatMatcher (S (min + List.length (rest x))) (compile dotAll r') min greedy x c
  | Group i r' => fun x c =>
      compile dotAll r' x (fun y =>
        c (mkMatchState (endIndex y) (rest y)
             ((i, (endIndex x, endIndex y)) :: captures y)))
  | Look r' => fun x c =>
      match compile dotAll r' x (fun y => Some y) with
      | None => None
      | Some y => c (mkMatchState (endIndex x) (rest x) (captures y))
      end
  | Bol => fun x c => if Nat.eqb (endIndex x) 0 then c x else None
  end.

Fixpoint groups (r : regex) : nat :=
  match r with
  | Seq r1 r2 | Alt r1 r2 => Nat.max (groups r1) (groups r2)
  | Rep _ _ r' | Look r' => groups r'
  | Group i r' => Nat.max i (groups r')
  | _ => 0
  end.

(** A successful match: where it starts and ends, the matched text and
    the text of each group ([None] for a group that did not take part,
    JavaScript's [undefined]). *)
Record matchResult : Type := mkMatch {
  index : nat;
  lastIndex : nat;
  matched : jsstring;
  group : list (option jsstring)
}.

Definition capture (s : jsstring) (caps : list (nat * (nat * nat))) (i : nat)
  : option jsstring :=
  match find (fun e => Nat.eqb (fst e) i) caps with
  | Some (_, (a, b)) => Some (firstn (b - a) (skipn a s))
  | None => None
  end.

(** One attempt anchored at index [q] (a sticky match). *)
Definition matchAt (dotAll : bool) (r : regex) (s : jsstring) (q : nat)
  : option matchResult :=
  match compile dotAll r (mkMatchState q (skipn q s) []) (fun y => Some y) with
  | None => None
  | Some y =>
      Some (mkMatch q (endIndex y) (firstn (endIndex y - q) (skipn q s))
              (map (capture s (captures y)) (seq 1 (groups r))))
  end.

(** RegExp.prototype.exec from index 0 without the global flag, which
    is what [String.prototype.match] runs: the leftmost index at which
    the pattern matches. *)
Fixpoint execFrom (dotAll : bool) (r : regex) (s : jsstring) (n q : nat)
  : option matchResult :=
  match matchAt dotAll r s q with
  | Some m => Some m
  | None => match n with
            | O => None
            | S n' => execFrom dotAll r s n' (S q)
            end
  end.

Definition exec (dotAll : bool) (r : regex) (s : jsstring) : option matchResult :=
  execFrom dotAll r s (List.length s) 0.

(** String.prototype.split with a regular-expression separator and no
    limit.  [p] is the start of the pending piece and [q] the index
    tried next; a match that ends at [p] is skipped.  Captured groups
    are spliced into the result after each piece.  Every round either
    advances [q] or moves [p] up to [q], so [2 * length + 2] rounds are
    enough. *)
Fixpoint splitLoop (fuel : nat) (dotAll : bool) (r : regex) (s : jsstring)
    (p q : nat) : list (option jsstring) :=
  match fuel with
  | O => [Some (skipn p s)]
  | S fuel' =>
      if Nat.ltb q (List.length s) then
        match matchAt dotAll r s q with
        | None => splitLoop fuel' dotAll r s p (S q)
        | Some m =>
            let e := Nat.min (lastIndex m) (List.length s) in
            if Nat.eqb e p then splitLoop fuel' dotAll r s p (S q)
            else Some (firstn (q - p) (skipn p s)) :: group m
                   ++ splitLoop fuel' dotAll r s e e
        end
      else [Some (skipn p s)]
  end.

Definition split (dotAll : bool) (r : regex) (s : jsstring)
  : list (option jsstring) :=
  match s with
  | [] => match matchAt dotAll r s 0 with
          | Some _ => []
          | None => [Some s]
          end
  | _ => splitLoop (2 * List.length s + 2) dotAll r s 0 0
  end.

(** *** Notions for reasoning about matchers *)

(** [y] is reached from [x] by consuming input. *)
Definition follows (x y : state) : Prop :=
  exists pre, rest x = pre ++ rest y
              /\ endIndex y = endIndex x + List.length pre.

(** The first state of [ys] that the continuation accepts. *)
Fixpoint firstSome (c : continuation) (ys : list state) : option state :=
  match ys with
  | [] => None
  | y :: t => match c y with Some z => Some z | None => firstSome c t end
  end.

(** A matcher tries a list of states that follow, in order, and
    returns what the continuation makes of the first it accepts. *)
Definition enumerates (m : matcher) : Prop :=
  forall x, exists ys, Forall (follows x) ys /\ forall c, m x c = firstSome c ys.

End RegExp.

(* ================================================================== *)
(** ** components/ChatMessage.tsx: text formatting and segmentation *)
(* ================================================================== *)

(** A JavaScript computation either completes normally or throws. *)
Inductive completion (A : Type) : Type :=
| Normal (a : A)
| Throw.
Arguments Throw {A}.

Module ChatMessage.
Import JS RegExp.

Definition Cat (l : list regex) : regex := fold_right Seq Empty l.
Definition C (s : string) : regex := Str s.

(** The heading pattern [\d+\.\s+\*\*(.*?):\*\*] with its group
    numbered [g]; it occurs in several patterns of the file. *)
Definition heading (g : nat) : regex :=
  Cat [Plus Digit; C "."; Plus Space; C "**"; Group g (StarLazy Dot); C ":**"].

(** [/\n\s*\d+\.\s+\*\*(.*?):\*\*/] *)
Definition sectionMarkerSource (g : nat) : regex :=
  Cat [Chr LF; Star Space; heading g].

Definition sectionMarker : regex := sectionMarkerSource 1.

(** [new RegExp(`^(.*?)(?=${sectionMarker.source})`, 's')] *)
Definition introPattern : regex :=
  Cat [Bol; Group 1 (StarLazy Dot); Look (sectionMarkerSource 2)].

(** [/\n\s*(?=H)/g], with the heading pattern for [H] *)
Definition partsPattern : regex :=
  Cat [Chr LF; Star Space; Look (heading 1)].

(** [/^\d+\.\s+\*\*(.*?):\*\*/] *)
Definition titlePattern : regex := Cat [Bol; heading 1].

(** [/(\*\*.*?\*\*|\[.*?\]\(.*?\))/g] *)
Definition inlinePattern : regex :=
  Group 1 (Alt (Cat [C "**"; StarLazy Dot; C "**"])
               (Cat [C "["; StarLazy Dot; C "]("; StarLazy Dot; C ")"])).

(** [/\[(.*?)\]\((.*?)\)/] *)
Definition linkPattern : regex :=
  Cat [C "["; Group 1 (StarLazy Dot); C "]("; Group 2 (StarLazy Dot); C ")"].

(** *** FormattedText *)

(** What FormattedText renders for one piece of the split text: a
    [<strong>] element, an [<a>] element with its text and href, or the
    piece itself. *)
Inductive fragment : Type :=
| PlainRun (s : jsstring)
| BoldRun (s : jsstring)
| LinkRun (linkText linkUrl : option jsstring).

Definition formatPart (part : jsstring) : fragment :=
  if startsWith (lit "**") part && endsWith (lit "**") part then
    BoldRun (slice part 2 (-2))
  else
    match exec false linkPattern part with
    | Some linkMatch =>
        LinkRun (nth 0 (group linkMatch) None) (nth 1 (group linkMatch) None)
    | None => PlainRun part
    end.

(** [parts.map(...)]; calling [startsWith] on [undefined] throws. *)
Fixpoint formatParts (parts : list (option jsstring)) : completion (list fragment) :=
  match parts with
  | [] => Normal []
  | None :: _ => Throw
  | Some part :: t =>
      match formatParts t with
      | Normal rs => Normal (formatPart part :: rs)
      | Throw => Throw
      end
  end.

Definition FormattedText (text : jsstring) : completion (list fragment) :=
  formatParts (split false inlinePattern text).

(** *** parseBotResponse *)

Record ParsedSection : Type := mkSection {
  title : jsstring;
  content : jsstring
}.

Record ParsedResponse : Type := mkParsed {
  intro : jsstring;
  sections : list ParsedSection;
  outro : jsstring
}.

(** [.filter(p => p.trim())]; calling [trim] on [undefined] throws. *)
Fixpoint filterNonBlank (ps : list (option jsstring)) : completion (list jsstring) :=
  match ps with
  | [] => Normal []
  | None :: _ => Throw
  | Some p :: t =>
      match filterNonBlank t with
      | Normal l => Normal (if truthy (trim p) then p :: l else l)
      | Throw => Throw
      end
  end.

(** The body of [parts.forEach]: the sections pushed for one part. *)
Definition sectionOfPart (part : jsstring) : list ParsedSection :=
  match exec false titlePattern part with
  | Some titleMatch =>
      match nth 0 (group titleMatch) None with
      | Some title =>
          let content := trim (substringFrom part (len (matched titleMatch))) in
          if truthy title && truthy content then [mkSection title content] else []
      | None => []
      end
  | None => []
  end.

Definition parseBotResponse (text : jsstring)
  : completion (option ParsedResponse) :=
  match exec false sectionMarker text with
  | None => Normal None
  | Some _ =>
      let introMatch := exec true introPattern text in
      match
        match introMatch with
        | Some m =>
            match nth 0 (group m) None with
            | Some g1 => Normal (trim g1, substringFrom text (len (matched m)))
            | None => Throw
            end
        | None => Normal ([], text)
        end
      with
      | Throw => Throw
      | Normal (intro, remainingText) =>
          match filterNonBlank (split false partsPattern remainingText) with
          | Throw => Throw
          | Normal parts =>
              let sections := flat_map sectionOfPart parts in
              let lastSectionText :=
                match rev sections with
                | last :: _ => lit "**" ++ title last ++ lit ":**" ++ content last
                | [] => []
                end in
              let lastSectionFullMarker := lastIndexOf lastSectionText text in
              let outro :=
                if Z.ltb (-1) lastSectionFullMarker then
                  let outroIndex := (lastSectionFullMarker + len lastSectionText)%Z in
                  let potentialOutro := trim (substringFrom text outroIndex) in
                  if truthy potentialOutro
                     && negb (match exec false sectionMarker potentialOutro with
                              | Some _ => true | None => false end)
                  then potentialOutro else []
                else [] in
              Normal (Some (mkParsed intro sections outro))
          end
      end
  end.

End ChatMessage.

(* ================================================================== *)
(** ** JSON.parse *)
(* ================================================================== *)

Module JSON.
Import JS.

(** Parsed values.  A number keeps its lexeme (the source never looks
    at the numeric value); an object keeps its members in source order,
    and a later member shadows an earlier one of the same name. *)
Inductive json : Type :=
| JNull
| JBool (b : bool)
| JNumber (lexeme : jsstring)
| JString (s : jsstring)
| JArray (items : list json)
| JObject (members : list (jsstring * json)).

Inductive token : Type :=
| TLBrace | TRBrace | TLBracket | TRBracket | TColon | TComma
| TString (s : jsstring)
| TNumber (lexeme : jsstring)
| TTrue | TFalse | TNull.

(** *** Lexical grammar *)

(** Progress through a number: an optional minus sign; a zero or a
    nonzero digit followed by digits; optionally a point and digits;
    optionally an exponent mark, an optional sign and digits. *)
Inductive numstate : Type :=
| NMinus | NZero | NInt | NDot | NFrac | NExp | NExpSign | NExpDigits.

Definition accepting (st : numstate) : bool :=
  match st with
  | NZero | NInt | NFrac | NExpDigits => true
  | _ => false
  end.

Definition isE (c : N) : bool := N.eqb c 101 || N.eqb c 69.
Definition isSign (c : N) : bool := N.eqb c 43 || N.eqb c 45.

Definition numstep (st : numstate) (c : N) : option numstate :=
  match st with
  | NMinus => if N.eqb c 48 then Some NZero
              else if isDigit c then Some NInt else None
  | NZero => if N.eqb c 46 then Some NDot
             else if isE c then Some NExp else None
  | NInt => if isDigit c then Some NInt
            else if N.eqb c 46 then Some NDot
            else if isE c then Some NExp else None
  | NDot => if isDigit c then Some NFrac else None
  | NFrac => if isDigit c then Some NFrac
             else if isE c then Some NExp else None
  | NExp => if isDigit c then Some NExpDigits
            else if isSign c then Some NExpSign else None
  | NExpSign => if isDigit c then Some NExpDigits else None
  | NExpDigits => if isDigit c then Some NExpDigits else None
  end.

Inductive lexmode : Type :=
| LTop
| LString (acc : jsstring)                    (* characters so far, reversed *)
| LEscape (acc : jsstring)                    (* after a backslash *)
| LUnicode (acc : jsstring) (digits : list N) (* after backslash u *)
| LNumber (acc : jsstring) (st : numstate)
| LLiteral (expected : jsstring) (tok : token).

(** JSON white space: tab, line feed, carriage return, space. *)
Definition isJSONSpace (c : N) : bool :=
  N.eqb c 9 || N.eqb c 10 || N.eqb c 13 || N.eqb c 32.

Definition hexval (c : N) : option N :=
  if N.leb 48 c && N.leb c 57 then Some (c - 48)%N
  else if N.leb 97 c && N.leb c 102 then Some (c - 87)%N
  else if N.leb 65 c && N.leb c 70 then Some (c - 55)%N
  else None.

(** The character an escape letter stands for. *)
Definition unescape (c : N) : option N :=
  if N.eqb c 34 then Some 34%N          (* quotation mark *)
  else if N.eqb c 92 then Some 92%N     (* backslash *)
  else if N.eqb c 47 then Some 47%N     (* solidus *)
  else if N.eqb c 98 then Some 8%N      (* b *)
  else if N.eqb c 102 then Some 12%N    (* f *)
  else if N.eqb c 110 then Some 10%N    (* n *)
  else if N.eqb c 114 then Some 13%N    (* r *)
  else if N.eqb c 116 then Some 9%N     (* t *)
  else None.

(** What a character does when no token is in progress. *)
Definition start (c : N) : option (lexmode * list token) :=
  if isJSONSpace c then Some (LTop, [])
  else if N.eqb c 123 then Some (LTop, [TLBrace])
  else if N.eqb c 125 then Some (LTop, [TRBrace])
  else if N.eqb c 91 then Some (LTop, [TLBracket])
  else if N.eqb c 93 then Some (LTop, [TRBracket])
  else if N.eqb c 58 then Some (LTop, [TColon])
  else if N.eqb c 44 then Some (LTop, [TComma])
  else if N.eqb c 34 then Some (LString [], [])
  else if N.eqb c 45 then Some (LNumber [c] NMinus, [])
  else if N.eqb c 48 then Some (LNumber [c] NZero, [])
  else if isDigit c then Some (LNumber [c] NInt, [])
  else if N.eqb c 116 then Some (LLiteral (lit "rue") TTrue, [])
  else if N.eqb c 102 then Some (LLiteral (lit "alse") TFalse, [])
  else if N.eqb c 110 then Some (LLiteral (lit "ull") TNull, [])
  else None.

(** The tokens of a text, or [None] where the text is not made of JSON
    tokens.  [out] collects the tokens in reverse. *)
Fixpoint lex (m : lexmode) (cs : jsstring) (out : list token)
  : option (list token) :=
  match cs with
  | [] =>
      match m with
      | LTop => Some (rev out)
      | LNumber acc st =>
          if accepting st then Some (rev (TNumber (rev acc) :: out)) else None
      | _ => None
      end
  | c :: t =>
      match m with
      | LTop =>
          match start c with
          | Some (m', toks) => lex m' t (toks ++ out)
          | None => None
          end
      | LString acc =>
          if N.eqb c 34 then lex LTop t (TString (rev acc) :: out)
          else if N.eqb c 92 then lex (LEscape acc) t out
          else if N.ltb c 32 then None
          else lex (LString (c :: acc)) t out
      | LEscape acc =>
          match unescape c with
          | Some e => lex (LString (e :: acc)) t out
          | None => if N.eqb c 117 then lex (LUnicode acc []) t out else None
          end
      | LUnicode acc ds =>
          match hexval c with
          | None => None
          | Some v =>
              match ds with
              | [d1; d2; d3] =>
                  lex (LString ((((d1 * 16 + d2) * 16 + d3) * 16 + v)%N :: acc)) t out
              | _ => lex (LUnicode acc (ds ++ [v])) t out
              end
          end
      | LNumber acc st =>
          match numstep st c with
          | Some st' => lex (LNumber (c :: acc) st') t out
          | None =>
              if accepting st then
                match start c with
                | Some (m', toks) => lex m' t (toks ++ TNumber (rev acc) :: out)
                | None => None
                end
              else None
          end
      | LLiteral expected tok =>
          match expected with
          | [e] => if N.eqb c e then lex LTop t (tok :: out) else None
          | e :: es => if N.eqb c e then lex (LLiteral es tok) t out else None
          | [] => None
          end
      end
  end.

(** *** Syntactic grammar *)

(** An array or object that is still open. *)
Inductive frame : Type :=
| FArray (items : list json)                    (* reversed *)
| FObject (members : list (jsstring * json))    (* reversed *)
          (key : option jsstring).              (* a key awaiting its value *)

(** What may come next. *)
Inductive expect : Type :=
| XValue            (* a value *)
| XValueOrClose     (* just after an opening bracket *)
| XKeyOrClose       (* just after an opening brace *)
| XKey              (* after a comma inside an object *)
| XColon            (* after a key *)
| XCommaOrClose     (* after a value inside an array or object *)
| XEnd (v : json).  (* the text's value is complete *)

(** A finished value goes into the innermost open container. *)
Definition deliver (v : json) (stack : list frame)
  : option (list frame * expect) :=
  match stack with
  | [] => Some ([], XEnd v)
  | FArray items :: st => Some (FArray (v :: items) :: st, XCommaOrClose)
  | FObject ms (Some k) :: st => Some (FObject ((k, v) :: ms) None :: st, XCommaOrClose)
  | FObject _ None :: _ => None
  end.

Definition scalar (t : token) : option json :=
  match t with
  | TString s => Some (JString s)
  | TNumber l => Some (JNumber l)
  | TTrue => Some (JBool true)
  | TFalse => Some (JBool false)
  | TNull => Some JNull
  | _ => None
  end.

Definition value (t : token) (stack : list frame)
  : option (list frame * expect) :=
  match t with
  | TLBracket => Some (FArray [] :: stack, XValueOrClose)
  | TLBrace => Some (FObject [] None :: stack, XKeyOrClose)
  | _ => match scalar t with
         | Some v => deliver v stack
         | None => None
         end
  end.

Definition closeArray (stack : list frame) : option (list frame * expect) :=
  match stack with
  | FArray items :: st => deliver (JArray (rev items)) st
  | _ => None
  end.

Definition closeObject (stack : list frame) : option (list frame * expect) :=
  match stack with
  | FObject ms None :: st => deliver (JObject (rev ms)) st
  | _ => None
  end.

Definition key (t : token) (stack : list frame) : option (list frame * expect) :=
  match t, stack with
  | TString k, FObject ms None :: st => Some (FObject ms (Some k) :: st, XColon)
  | _, _ => None
  end.

Definition shift (t : token) (stack : list frame) (e : expect)
  : option (list frame * expect) :=
  match e with
  | XValue => value t stack
  | XValueOrClose =>
      match t with TRBracket => closeArray stack | _ => value t stack end
  | XKeyOrClose =>
      match t with TRBrace => closeObject stack | _ => key t stack end
  | XKey => key t stack
  | XColon => match t with TColon => Some (stack, XValue) | _ => None end
  | XCommaOrClose =>
      match t, stack with
      | TComma, FArray _ :: _ => Some (stack, XValue)
      | TComma, FObject _ _ :: _ => Some (stack, XKey)
      | TRBracket, _ => closeArray stack
      | TRBrace, _ => closeObject stack
      | _, _ => None
      end
  | XEnd _ => None
  end.

Fixpoint parseTokens (ts : list token) (stack : list frame) (e : expect)
  : option json :=
  match ts with
  | [] => match e with XEnd v => Some v | _ => None end
  | t :: ts' =>
      match shift t stack e with
      | Some (stack', e') => parseTokens ts' stack' e'
      | None => None
      end
  end.

(** [JSON.parse]: the value of the text, or [None] where JavaScript
    throws a SyntaxError. *)
Definition parse (text : jsstring) : option json :=
  match lex LTop text [] with
  | Some ts => parseTokens ts [] XValue
  | None => None
  end.

(** Property access [v.name] on a parsed value: [None] is JavaScript's
    [undefined].  No member of the prototypes of Object, Array, String,
    Number or Boolean is called [question] or [options], the only names
    the source reads, so only an object's own members can answer. *)
Fixpoint lookup (name : jsstring) (ms : list (jsstring * json)) : option json :=
  match ms with
  | [] => None
  | (k, v) :: t =>
      match lookup name t with
      | Some w => Some w
      | None => if eqb k name then Some v else None
      end
  end.

Definition member (v : json) (name : jsstring) : option json :=
  match v with
  | JObject ms => lookup name ms
  | _ => None
  end.

(** Whether a text, written with grave accents for quotation marks, is
    accepted. *)
Definition parses (s : string) : bool :=
  match parse (litq s) with Some _ => true | None => false end.

End JSON.

(* ================================================================== *)
(** ** types.ts *)
(* ================================================================== *)

Module Types.
Import JS.

Inductive Role : Type := USER | BOT | SYSTEM.

Definition Role_eqb (a b : Role) : bool :=
  match a, b with
  | USER, USER | BOT, BOT | SYSTEM, SYSTEM => true
  | _, _ => false
  end.

(** Optional fields are [option]s; [None] is an absent field.  The
    options of a question are whatever the array in the model's JSON
    held, so they are JSON values. *)
Record Message : Type := mkMessage {
  id : jsstring;
  role : Role;
  text : jsstring;
  imageUrl : option jsstring;
  options : option (list JSON.json);
  isQuestion : option bool
}.

Record ImagePart : Type := mkImagePart {
  mimeType : jsstring;
  data : jsstring
}.

End Types.

(* ================================================================== *)
(** ** services/geminiService.ts *)
(* ================================================================== *)

Module GeminiService.
Import JS Types.

Inductive Part : Type :=
| InlineData (mimeType data : jsstring)
| Text (s : jsstring).

(** [streamResponse] up to the call of [sendMessageStream]: it rejects
    when no chat was created, answers by itself when there is nothing to
    send, and otherwise sends the parts. *)
Inductive begun : Type :=
| Rejects
| Returns (responseText : jsstring)
| Sends (parts : list Part).

Definition streamResponse_begin (chat : bool) (prompt : jsstring)
    (image : option ImagePart) : begun :=
  if negb chat then Rejects
  else
    let parts :=
      (match image with
       | Some i => [InlineData (mimeType i) (data i)]
       | None => []
       end)
      ++ (if truthy (trim prompt) then [Text prompt] else []) in
    match parts with
    | [] => Returns (lit "Please provide a question or an image.")
    | _ => Sends parts
    end.

(** [streamResponse] once the stream has ended: the chunks' texts are
    concatenated, a chunk without text is skipped, and a blank result is
    replaced by an apology. *)
Definition streamResponse_end (chunks : list (option jsstring)) : jsstring :=
  let responseText :=
    fold_left (fun acc chunkText =>
                 match chunkText with
                 | Some t => if truthy t then acc ++ t else acc
                 | None => acc
                 end) chunks [] in
  if negb (truthy (trim responseText)) then
    lit "I'm sorry, I couldn't process that. Could you please try rephrasing?"
  else responseText.

End GeminiService.

(* ================================================================== *)
(** ** App.tsx and components/ChatInput.tsx: the controller *)
(* ================================================================== *)

Module App.
Import JS JSON Types GeminiService.

(** *** cleanAndParseJson *)

(** The declared result type of cleanAndParseJson: the two fields a
    caller can read from the object it returns. *)
Module Payload.
Record t : Type := mk {
  question : jsstring;
  options : list json
}.
End Payload.

Definition cleanAndParseJson (text : jsstring) : option Payload.t :=
  let jsonStart := indexOf (lit "{") text in
  let jsonEnd := lastIndexOf (lit "}") text in
  if Z.eqb jsonStart (-1) || Z.eqb jsonEnd (-1) || Z.ltb jsonEnd jsonStart then
    None
  else
    let jsonString := substring text jsonStart (jsonEnd + 1) in
    match JSON.parse jsonString with
    | None => None                            (* SyntaxError, caught *)
    | Some parsed =>
        (* [parsed.question && typeof parsed.question === 'string'] holds
           of a non-empty string only; [Array.isArray(parsed.options)]. *)
        match member parsed (lit "question"), member parsed (lit "options") with
        | Some (JString q), Some (JArray os) =>
            if truthy q then Some (Payload.mk q os) else None
        | _, _ => None
        end
    end.

(** The two response modes, decided by [if (parsedJson)] in
    handleSendMessage. *)
Inductive Classification : Type :=
| ClarifyingQuestion (payload : Payload.t)
| FreeformAdvice (raw : jsstring).

Definition classify (raw : jsstring) : Classification :=
  match cleanAndParseJson raw with
  | Some parsedJson => ClarifyingQuestion parsedJson
  | None => FreeformAdvice raw
  end.

(** *** State *)

(** An attached image: its MIME type and the URL that
    [URL.createObjectURL] hands out for it. *)
Record File : Type := mkFile {
  fileType : jsstring;
  objectUrl : jsstring
}.

(** A call of handleSendMessage that is suspended at an [await]. *)
Inductive Stage : Type :=
| ReadingImage                        (* await fileToBase64(image) *)
| AwaitingModel (parts : list Part).  (* await streamResponse: request sent *)

Record PendingSend : Type := mkPendingSend {
  sendText : jsstring;
  sendImage : option File;
  revokeUrl : option jsstring;        (* userMessage?.imageUrl *)
  stage : Stage
}.

(** A call of [getCurrentPosition] that has not called back.  Its
    callbacks hold the handleSendMessage of the render in which the
    request was made, and with it that render's [isLoading]. *)
Record PendingGeo : Type := mkPendingGeo {
  locatingId : jsstring;
  capturedIsLoading : bool
}.

Record State : Type := mkState {
  messages : list Message;
  isLoading : bool;
  isBotTyping : bool;
  chat : bool;                        (* geminiService.chat is not null *)
  sends : list PendingSend;
  geos : list PendingGeo;
  revoked : list jsstring             (* URLs given to URL.revokeObjectURL *)
}.

Definition initial : State := mkState [] false false false [] [] [].

Definition setMessages (f : list Message -> list Message) (st : State) : State :=
  mkState (f (messages st)) (isLoading st) (isBotTyping st) (chat st)
          (sends st) (geos st) (revoked st).

Definition setIsLoading (b : bool) (st : State) : State :=
  mkState (messages st) b (isBotTyping st) (chat st)
          (sends st) (geos st) (revoked st).

Definition setIsBotTyping (b : bool) (st : State) : State :=
  mkState (messages st) (isLoading st) b (chat st)
          (sends st) (geos st) (revoked st).

Definition setChat (b : bool) (st : State) : State :=
  mkState (messages st) (isLoading st) (isBotTyping st) b
          (sends st) (geos st) (revoked st).

Definition setSends (f : list PendingSend -> list PendingSend) (st : State) : State :=
  mkState (messages st) (isLoading st) (isBotTyping st) (chat st)
          (f (sends st)) (geos st) (revoked st).

Definition setGeos (f : list PendingGeo -> list PendingGeo) (st : State) : State :=
  mkState (messages st) (isLoading st) (isBotTyping st) (chat st)
          (sends st) (f (geos st)) (revoked st).

Definition revokeObjectURL (u : jsstring) (st : State) : State :=
  mkState (messages st) (isLoading st) (isBotTyping st) (chat st)
          (sends st) (geos st) (u :: revoked st).

Definition append {A : Type} (x : A) (l : list A) : list A := l ++ [x].

(** *** initChat *)

Definition greeting : Message :=
  mkMessage (lit "initial-greeting") BOT
    (lit "Hello! I'm MediGenie, your personal AI health companion. I'm here to provide clear, confident health guidance. How can I help you today?")
    None None None.

Definition initError : Message :=
  mkMessage (lit "init-error") SYSTEM
    (lit "Failed to initialize the chat service. Please check your API key and refresh the page.")
    None None None.

(** [ok] tells whether [geminiService.initializeChat()] succeeded; it
    settles without waiting for anything outside the page. *)
Definition initChat (ok : bool) (st : State) : State :=
  let st := setIsLoading true st in
  let st := if ok then setMessages (fun _ => [greeting]) (setChat true st)
            else setMessages (fun _ => [initError]) st in
  setIsLoading false st.

(** *** handleSendMessage *)

Definition botResponse (now : N) (responseText : jsstring) : Message :=
  match cleanAndParseJson responseText with
  | Some parsedJson =>
      mkMessage (lit "bot-" ++ ofNumber now) BOT (Payload.question parsedJson)
                None (Some (Payload.options parsedJson)) (Some true)
  | None =>
      mkMessage (lit "bot-" ++ ofNumber now) BOT responseText None None None
  end.

Definition errorMessage (now : N) : Message :=
  mkMessage (lit "system-" ++ ofNumber now) SYSTEM
            (lit "Sorry, something went wrong. Please try again.")
            None None None.

(** The end of handleSendMessage, from the point where
    [await streamResponse] settles: the [try] block's tail or the [catch]
    block, then the [finally] block. *)
Definition settle (now : N) (p : PendingSend) (result : completion jsstring)
    (st : State) : State :=
  let st :=
    match result with
    | Normal responseText => setMessages (append (botResponse now responseText)) st
    | Throw => setMessages (append (errorMessage now)) st
    end in
  let st := setIsBotTyping false st in
  let st := setIsLoading false st in
  match revokeUrl p with
  | Some u => if truthy u then revokeObjectURL u st else st
  | None => st
  end.

(** The call [geminiService.streamResponse(text, imagePart)]. *)
Definition callModel (now : N) (p : PendingSend) (imagePart : option ImagePart)
    (st : State) : State :=
  match streamResponse_begin (chat st) (sendText p) imagePart with
  | Rejects => settle now p Throw st
  | Returns responseText => settle now p (Normal responseText) st
  | Sends parts =>
      setSends (append (mkPendingSend (sendText p) (sendImage p) (revokeUrl p)
                                      (AwaitingModel parts))) st
  end.

(** handleSendMessage up to its first [await].  The callback is made by
    [useCallback] with the dependency [isLoading], so its guard reads
    the flag of the render that created it: [isLoading_].  The state
    setters act on the current state.  [now] is the reading of
    [Date.now()] during the turn. *)
Definition handleSendMessage (isLoading_ : bool) (now : N) (text : jsstring)
    (image : option File) (isHidden : bool) (st : State) : State :=
  if (negb (truthy (trim text)) && match image with Some _ => false | None => true end)
     || isLoading_
  then st
  else
    let st := setIsLoading true st in
    let userMessage :=
      if negb isHidden then
        Some (mkMessage (lit "user-" ++ ofNumber now) USER text
                        (option_map objectUrl image) None None)
      else None in
    let st := match userMessage with
              | Some m => setMessages (append m) st
              | None => st
              end in
    let st := setIsBotTyping true st in
    let p := mkPendingSend text image
               (match userMessage with Some m => imageUrl m | None => None end)
               ReadingImage in
    match image with
    | Some _ => setSends (append p) st
    | None => callModel now p None st
    end.

(** *** handleLocationRequest and the geolocation callbacks *)

Inductive GeoResult : Type :=
| Position (latitude longitude : jsstring)   (* the numbers as interpolated *)
| PositionError (message : jsstring).

Definition locationPrompt (latitude longitude : jsstring) : jsstring :=
  lit "The user has shared their location. Latitude: " ++ latitude
  ++ lit ", Longitude: " ++ longitude
  ++ lit ". Please provide the final advice including nearby medical facilities.".

Definition errorPrompt (message : jsstring) : jsstring :=
  lit "The user tried to share their location, but an error occurred: " ++ message
  ++ lit ". Please provide final advice without location suggestions and mention that location services failed.".

Definition facilityUserMessage (now : N) : Message :=
  mkMessage (lit "user-" ++ ofNumber now) USER
            (lit "Yes, help me find a facility.") None None None.

Definition locatingMessage (now : N) : Message :=
  mkMessage (lit "bot-locating-" ++ ofNumber now) BOT
            (lit "Got it. Finding your location...") None None None.

(** [geolocation] tells whether [navigator.geolocation] exists. *)
Definition handleLocationRequest (now : N) (geolocation : bool) (st : State)
  : State :=
  if negb geolocation then
    handleSendMessage (isLoading st) now
      (lit "My browser doesn't support geolocation, so I cannot share my location.")
      None false st
  else
    let st' := setMessages (fun prev => prev ++ [facilityUserMessage now; locatingMessage now]) st in
    setGeos (append (mkPendingGeo (id (locatingMessage now)) (isLoading st))) st'.

(** Either callback of [getCurrentPosition]. *)
Definition geoCallback (now : N) (g : PendingGeo) (r : GeoResult) (st : State)
  : State :=
  let prompt :=
    match r with
    | Position latitude longitude => locationPrompt latitude longitude
    | PositionError message => errorPrompt message
    end in
  let st := setMessages (filter (fun m => negb (eqb (id m) (locatingId g)))) st in
  handleSendMessage (capturedIsLoading g) now prompt None true st.

(** *** handleOptionClick *)

Definition isBotQuestion (m : Message) : bool :=
  Role_eqb (role m) BOT
  && match isQuestion m with Some b => b | None => false end.

Definition lastQuestion (st : State) : option Message :=
  find isBotQuestion (rev (messages st)).

Definition isLocationQuestion (st : State) : bool :=
  match lastQuestion st with
  | Some lastMessage => includes (lit "find a nearby medical facility") (text lastMessage)
  | None => false
  end.

Definition handleOptionClick (now : N) (geolocation : bool)
    (optionText : jsstring) (st : State) : State :=
  if includes (lit "find a facility") (toLowerCase optionText)
     && isLocationQuestion st
  then handleLocationRequest now geolocation st
  else handleSendMessage (isLoading st) now optionText None false st.

(** *** What the rendered page lets the user do *)

(** ChatInput's handleSend. *)
Definition handleSend (now : N) (text : jsstring) (image : option File)
    (st : State) : State :=
  if (truthy (trim text) || match image with Some _ => true | None => false end)
     && negb (isLoading st)
  then handleSendMessage (isLoading st) now text image false st
  else st.

(** The [disabled] attribute of the option buttons of the message at
    [index]: [isLoading || !isLastMessage]. *)
Definition optionsDisabled (st : State) (index : nat) : bool :=
  isLoading st
  || negb (Z.eqb (Z.of_nat index) (Z.of_nat (List.length (messages st)) - 1)).

(** A click on the [k]-th option button of the message at [index].
    Buttons exist where [isQuestion && options] holds, except on System
    messages; a disabled button does not call its handler; an option
    that is not a string has no [toLowerCase], so the handler throws
    before it changes anything.  (How such an option is displayed is not
    part of the model.) *)
Definition clickOption (now : N) (geolocation : bool) (index k : nat)
    (st : State) : State :=
  match nth_error (messages st) index with
  | Some m =>
      match role m, isQuestion m, options m with
      | SYSTEM, _, _ => st
      | _, Some true, Some os =>
          match nth_error os k with
          | Some option =>
              if optionsDisabled st index then st
              else match option with
                   | JString optionText => handleOptionClick now geolocation optionText st
                   | _ => st
                   end
          | None => st
          end
      | _, _, _ => st
      end
  | None => st
  end.

(** *** Events *)

(** The application runs one callback at a time.  An event is a
    callback the browser runs, with what the environment supplies to it:
    - [Mount]: the effect that calls initChat when the page mounts;
    - [NewChat]: handleNewChat, with the answer to [window.confirm];
    - [Submit]: the input box sends a text and maybe an image;
    - [Click]: a click on the [k]-th option button of message [index];
    - [ImageRead]: [fileToBase64] settles for the [k]-th pending call;
    - [ModelDone]: the stream of the [k]-th pending call ends or fails;
    - [GeoDone]: the [k]-th position request calls back.
    The handlers that the page holds are those of the latest render and
    read the current [isLoading]; the geolocation callbacks read the one
    they captured. *)

Fixpoint removeNth {A : Type} (k : nat) (l : list A) : list A :=
  match k, l with
  | _, [] => []
  | O, _ :: t => t
  | S k', x :: t => x :: removeNth k' t
  end.

Inductive Event : Type :=
| Mount (ok : bool)
| NewChat (confirmed ok : bool)
| Submit (now : N) (text : jsstring) (image : option File)
| Click (now : N) (geolocation : bool) (index k : nat)
| ImageRead (now : N) (k : nat) (base64 : completion jsstring)
| ModelDone (now : N) (k : nat) (stream : completion (list (option jsstring)))
| GeoDone (now : N) (k : nat) (result : GeoResult).

Definition step (st : State) (e : Event) : State :=
  match e with
  | Mount ok => initChat ok st
  | NewChat confirmed ok => if confirmed then initChat ok st else st
  | Submit now text image => handleSend now text image st
  | Click now geolocation index k => clickOption now geolocation index k st
  | ImageRead now k base64 =>
      match nth_error (sends st) k with
      | Some p =>
          match stage p, sendImage p with
          | ReadingImage, Some image =>
              let st := setSends (removeNth k) st in
              match base64 with
              | Normal base64Data =>
                  callModel now p (Some (mkImagePart (fileType image) base64Data)) st
              | Throw => settle now p Throw st
              end
          | _, _ => st
          end
      | None => st
      end
  | ModelDone now k stream =>
      match nth_error (sends st) k with
      | Some p =>
          match stage p with
          | AwaitingModel _ =>
              let st := setSends (removeNth k) st in
              match stream with
              | Normal chunks => settle now p (Normal (streamResponse_end chunks)) st
              | Throw => settle now p Throw st
              end
          | ReadingImage => st
          end
      | None => st
      end
  | GeoDone now k result =>
      match nth_error (geos st) k with
      | Some g => geoCallback now g result (setGeos (removeNth k) st)
      | None => st
      end
  end.

Definition run (st : State) (es : list Event) : State := fold_left step es st.

(** The model requests that are outstanding. *)
Definition awaitingModel (p : PendingSend) : bool :=
  match stage p with AwaitingModel _ => true | ReadingImage => false end.

Definition inFlight (st : State) : nat :=
  List.length (filter awaitingModel (sends st)).

End App.

(* ================================================================== *)
(** ** Scenarios and predicates used in the statements *)
(* ================================================================== *)

Module Statements.
Import JS JSON Types GeminiService App.

(** Every message of the store satisfies [P]. *)
Definition storeSatisfies (P : Message -> Prop) (st : State) : Prop :=
  Forall P (messages st).

(** The advice text of the specification's segmentation scenario.  The
    bullet is U+2022 and the degree sign U+00B0. *)
Definition adviceScenario : jsstring :=
  lit "1. **Likely Condition:** This could be tension headache." ++ [LF]
  ++ lit "2. **What to Do Now:** Rest and hydrate." ++ [LF]
  ++ lit "3. **Diet & Lifestyle:** Reduce caffeine." ++ [LF]
  ++ lit "4. **When to See a Doctor:** " ++ [8226%N] ++ lit " Fever over 102"
  ++ [176%N] ++ lit "F".

(** The text between the first opening brace and the last closing
    brace of [text] is a JSON object whose [question] is the non-empty
    string [q] and whose [options] is the array [os]. *)
Definition questionShape (text q : jsstring) (os : list json) : Prop :=
  let i := indexOf (lit "{") text in
  let j := lastIndexOf (lit "}") text in
  i <> (-1)%Z /\ j <> (-1)%Z /\ (i <= j)%Z
  /\ exists ms,
       JSON.parse (substring text i (j + 1)) = Some (JObject ms)
       /\ lookup (lit "question") ms = Some (JString q)
       /\ q <> []
       /\ lookup (lit "options") ms = Some (JArray os).

(** The shape with options that are all strings, as the declared type
    of the payload has them; there may be none. *)
Definition stringQuestionShape (text q : jsstring) (ss : list jsstring) : Prop :=
  questionShape text q (map JString ss).

(** The shape with the further demand that the options be one or more
    strings. *)
Definition strictQuestionShape (text q : jsstring) (ss : list jsstring) : Prop :=
  questionShape text q (map JString ss) /\ 1 <= List.length ss.

(** A response whose braces hold a question with an empty option list. *)
Definition emptyOptionsText : jsstring :=
  litq "{`question`: `Any other symptoms?`, `options`: []}".

(** The model's reply in the specification's question scenario. *)
Definition durationText : jsstring :=
  litq "{`question`: `How long have you had this?`, `options`: [`Today`,`A few days`,`More than a week`]}".

(** The message carries one or more options. *)
Definition hasOptions (m : Message) : bool :=
  match options m with
  | Some (_ :: _) => true
  | _ => false
  end.

(** The invariant as the specification words it. *)
Definition optionsIffQuestion (m : Message) : Prop :=
  hasOptions m = true <-> isQuestion m = Some true.

(** What the controller maintains: the question flag goes with the
    presence of an option list, and so with every non-empty one. *)
Definition optionsPresentIffQuestion (m : Message) : Prop :=
  (options m <> None <-> isQuestion m = Some true)
  /\ (hasOptions m = true -> isQuestion m = Some true).

(** A conversation in which the model asks a question and offers no
    options. *)
Definition emptyOptionsRun : list Event :=
  [ Mount true;
    Submit 1 (lit "Hi") None;
    ModelDone 2 0 (Normal [Some emptyOptionsText]) ].

(** A turn of the assistant. *)
Definition isAssistant (m : Message) : bool := Role_eqb (role m) BOT.

(** The assistant's turns, from which the phase of the conversation is
    read. *)
Definition assistantTurns (st : State) : list Message :=
  filter isAssistant (messages st).

(** The follow-up question that the system instruction prescribes. *)
Definition followUpText : jsstring :=
  litq "{`question`: `I hope this initial guidance is helpful. Should I continue to monitor, or would you like me to help you find a nearby medical facility for a professional opinion?`, `options`: [`I'll follow the advice for now.`, `Help me find a facility.`]}".

(** The user asks for a facility, types a message while the position
    is being looked up, and then the position arrives. *)
Definition overlapRun : list Event :=
  [ Mount true;
    Submit 1 (lit "I have a headache") None;
    ModelDone 2 0 (Normal [Some followUpText]);
    Click 3 true 2 1;
    Submit 4 (lit "I also feel dizzy") None ].

(** The position request of that conversation succeeds. *)
Definition positionArrives : Event :=
  GeoDone 5 0 (Position (lit "12.97") (lit "77.59")).

(** The index, counted from [i], of the last assistant message of [l]. *)
Fixpoint lastAssistantFrom (l : list Message) (i : nat) : option nat :=
  match l with
  | [] => None
  | m :: t =>
      match lastAssistantFrom t (S i) with
      | Some j => Some j
      | None => if isAssistant m then Some i else None
      end
  end.

(** The index of the most recent assistant message of the store. *)
Definition mostRecentAssistant (st : State) : option nat :=
  lastAssistantFrom (messages st) 0.

(** Pending position requests were made in renders whose flag was
    clear. *)
Definition geosFresh (st : State) : Prop :=
  Forall (fun g => capturedIsLoading g = false) (geos st).

(** Before a chat exists, the store has no question of the assistant,
    no request has been sent and no position is awaited. *)
Definition nothingFromModel (st : State) : Prop :=
  Forall (fun m => isBotQuestion m = false) (messages st)
  /\ Forall (fun p => stage p = ReadingImage) (sends st)
  /\ geos st = [].

(** Both, of a state. *)
Definition wellFormed (st : State) : Prop :=
  geosFresh st /\ (chat st = false -> nothingFromModel st).

(** The text handleLocationRequest submits when the browser has no
    geolocation. *)
Definition unsupportedText : jsstring :=
  lit "My browser doesn't support geolocation, so I cannot share my location.".

(** The state in which the follow-up question has just been asked. *)
Definition followUpState : State :=
  run initial [ Mount true; Submit 1 (lit "I have a headache") None;
                ModelDone 2 0 (Normal [Some followUpText]) ].

End Statements.

(* ================================================================== *)
(** ** App.tsx: fileToBase64 *)
(* ================================================================== *)

Module DataUrl.
Import JS.

(** [String.prototype.split] with a separator of one code unit and no
    limit: the pieces between the occurrences of the separator. *)
Fixpoint splitOn (sep : N) (s : jsstring) : list jsstring :=
  match s with
  | [] => [[]]
  | c :: t =>
      if N.eqb c sep then [] :: splitOn sep t
      else match splitOn sep t with
           | piece :: pieces => (c :: piece) :: pieces
           | [] => [[c]]
           end
  end.

(** What the [onload] handler of fileToBase64 resolves the promise
    with, given [reader.result]: [result.split(',')[1]], which is
    [undefined] when the array has one element. *)
Definition fileToBase64_onload (result : jsstring) : option jsstring :=
  nth_error (splitOn 44 result) 1.

End DataUrl.

(* ================================================================== *)
(** ** Notions for the further properties *)
(* ================================================================== *)

Module RenderingNotions.
Import JS RegExp ChatMessage.

(** Group [i] has been recorded in the state [y]. *)
Definition captured (i : nat) (y : state) : bool :=
  existsb (fun e => Nat.eqb (fst e) i) (captures y).

(** The groups that every successful match of the pattern records: those
    of both branches of an alternative, and none of a repetition that
    may run zero times. *)
Fixpoint sets (r : regex) : list nat :=
  match r with
  | Seq r1 r2 => sets r1 ++ sets r2
  | Alt r1 r2 => filter (fun i => existsb (Nat.eqb i) (sets r2)) (sets r1)
  | Rep min _ r' => if Nat.eqb min 0 then [] else sets r'
  | Group i r' => i :: sets r'
  | Look r' => sets r'
  | _ => []
  end.

(** No recorded group is forgotten on the way from [x] to [y]. *)
Definition grows (x y : state) : Prop :=
  forall i, captured i x = true -> captured i y = true.

(** Whenever the matcher succeeds, the continuation was given a state
    that holds the groups of [S] besides those it started with. *)
Definition records (S : list nat) (m : matcher) : Prop :=
  forall x c z, m x c = Some z ->
    exists y, c y = Some z /\ grows x y
              /\ forall i, In i S -> captured i y = true.

(** Every group of the pattern is recorded by every match. *)
Definition total (r : regex) : bool :=
  forallb (fun i => existsb (Nat.eqb i) (sets r)) (seq 1 (groups r)).

(** A section has a title and a content, and the content has no white
    space at either end. *)
Definition wellShaped (s : ParsedSection) : Prop :=
  title s <> [] /\ content s <> [] /\ trim (content s) = content s.

End RenderingNotions.

Module ControllerNotions.
Import JS JSON Types GeminiService App.

(** The text of a chunk, empty when the chunk has none. *)
Definition chunkText (chunk : option jsstring) : jsstring :=
  match chunk with Some t => t | None => [] end.

Definition joinChunks (chunks : list (option jsstring)) : jsstring :=
  List.concat (map chunkText chunks).

Definition apology : jsstring :=
  lit "I'm sorry, I couldn't process that. Could you please try rephrasing?".

(** A busy flag is backed by a pending call of handleSendMessage, and
    the typing indicator is shown. *)
Definition flagBacked (st : State) : Prop :=
  isLoading st = true -> sends st <> [] /\ isBotTyping st = true.

(** What a pending call holds: while the image is read there is an
    image; the parts sent to the model are the non-blank text alone, or
    the image followed by the text when the text is not blank. *)
Definition requestWellFormed (p : PendingSend) : Prop :=
  match stage p with
  | ReadingImage => sendImage p <> None
  | AwaitingModel parts =>
      (parts = [Text (sendText p)] /\ truthy (trim (sendText p)) = true)
      \/ (exists mimeType data,
            parts = InlineData mimeType data
                    :: (if truthy (trim (sendText p)) then [Text (sendText p)] else []))
  end.

(** The store [new] is [old] with at most [bound] messages appended. *)
Definition extends (bound : nat) (old new : list Message) : Prop :=
  exists extra, new = old ++ extra /\ List.length extra <= bound.

Definition placeholderPrefix : jsstring := lit "bot-locating-".

(** A message is a locating placeholder, or its id does not begin like
    the id of one. *)
Definition placeholderOrOther (m : Message) : Prop :=
  (exists n, m = locatingMessage n) \/ startsWith placeholderPrefix (id m) = false.

Definition placeholderRequest (g : PendingGeo) : Prop :=
  exists n, locatingId g = placeholderPrefix ++ ofNumber n.

(** A user message has a non-blank text or an image; any other message
    has a text. *)
Definition hasContent (m : Message) : Prop :=
  match role m with
  | USER => truthy (trim (text m)) = true \/ imageUrl m <> None
  | BOT | SYSTEM => text m <> []
  end.

(** The optional fields a message of each role may carry: only a user
    message has an image, only an assistant message has options, and a
    system message is one of the two fixed notices. *)
Definition fieldsFitRole (m : Message) : Prop :=
  match role m with
  | USER => options m = None /\ isQuestion m = None
  | BOT => imageUrl m = None
  | SYSTEM =>
      imageUrl m = None /\ options m = None /\ isQuestion m = None
      /\ (text m = text initError \/ text m = text (errorMessage 0))
  end.

End ControllerNotions.

(* ================================================================== *)
(** ** Properties of the string routines *)
(* ================================================================== *)

Module JSFacts.
Import JS.

Lemma eqb_spec a b : eqb a b = true <-> a = b.
Proof.
  revert b; induction a as [|x a IH]; intros [|y b]; simpl;
    try (split; congruence).
  rewrite andb_true_iff, N.eqb_eq, IH. split.
  - intros [-> ->]; reflexivity.
  - intros [= -> ->]; split; reflexivity.
Qed.

Lemma startsWith_app (n b : jsstring) : startsWith n (n ++ b) = true.
Proof.
  induction n as [|x n IH]; simpl; [reflexivity|].
  rewrite N.eqb_refl, IH. reflexivity.
Qed.

Lemma startsWith_prefix (n s : jsstring) :
  startsWith n s = true -> exists b, s = n ++ b.
Proof.
  revert s; induction n as [|x n IH]; intros s H.
  - exists s. reflexivity.
  - destruct s as [|y s]; simpl in H; [discriminate H|].
    apply andb_true_iff in H. destruct H as [Hxy H].
    apply N.eqb_eq in Hxy. subst y.
    destruct (IH s H) as [b ->]. exists b. reflexivity.
Qed.

Lemma indexOf_from_found (n b a : jsstring) :
  forall i, (0 <= i)%Z -> (0 <= indexOf_from n (a ++ n ++ b) i)%Z.
Proof.
  induction a as [|x a IH]; intros i Hi.
  - simpl app. destruct (n ++ b) eqn:E; simpl;
      rewrite <- E, startsWith_app; exact Hi.
  - simpl. destruct (startsWith n (x :: a ++ n ++ b)); [exact Hi|].
    apply IH. lia.
Qed.

Lemma includes_app (n a b : jsstring) : includes n (a ++ n ++ b) = true.
Proof.
  unfold includes, indexOf. apply negb_true_iff, Z.eqb_neq.
  pose proof (@indexOf_from_found n b a 0%Z (Z.le_refl 0)). lia.
Qed.

Lemma indexOf_from_split (n s : jsstring) :
  forall i, indexOf_from n s i <> (-1)%Z -> exists a b, s = a ++ n ++ b.
Proof.
  induction s as [|x s IH]; intros i H.
  - simpl in H. destruct (startsWith n []) eqn:E; [|contradiction H; reflexivity].
    destruct (startsWith_prefix n [] E) as [b Hb]. exists [], b. exact Hb.
  - simpl in H. destruct (startsWith n (x :: s)) eqn:E.
    + destruct (startsWith_prefix n (x :: s) E) as [b Hb]. exists [], b. exact Hb.
    + destruct (IH _ H) as (a & b & ->). exists (x :: a), b. reflexivity.
Qed.

Lemma includes_split (n s : jsstring) :
  includes n s = true -> exists a b, s = a ++ n ++ b.
Proof.
  unfold includes, indexOf. intros H.
  apply negb_true_iff, Z.eqb_neq in H. exact (indexOf_from_split n s _ H).
Qed.

Lemma toLowerCase_app (a b : jsstring) :
  toLowerCase (a ++ b) = toLowerCase a ++ toLowerCase b.
Proof. apply flat_map_app. Qed.

(** A needle that lower-casing leaves alone is found in the lower-cased
    text wherever it is found in the text. *)
Lemma includes_toLowerCase (n s : jsstring) :
  toLowerCase n = n -> includes n s = true -> includes n (toLowerCase s) = true.
Proof.
  intros Hn H. destruct (includes_split n s H) as (a & b & ->).
  rewrite !toLowerCase_app, Hn. apply includes_app.
Qed.

Lemma trimStart_keeps (l : jsstring) (c : N) :
  isSpace c = false -> trimStart (l ++ [c]) <> [].
Proof.
  intros Hc. induction l as [|x l IH]; simpl.
  - rewrite Hc. discriminate.
  - destruct (isSpace x); [exact IH | discriminate].
Qed.

Lemma trim_truthy (c : N) (rest : jsstring) :
  isSpace c = false -> truthy (trim (c :: rest)) = true.
Proof.
  intros Hc. unfold trim. simpl trimStart. rewrite Hc.
  unfold trimEnd. simpl rev.
  pose proof (@trimStart_keeps (rev rest) c Hc) as H.
  destruct (trimStart (rev rest ++ [c])) as [|y l] eqn:E; [contradiction H; reflexivity|].
  simpl rev. destruct (rev l); reflexivity.
Qed.

End JSFacts.

(* ================================================================== *)
(** ** Properties of the regular-expression matcher *)
(* ================================================================== *)

Module RegExpFacts.
Import JS RegExp.

Lemma follows_refl x : follows x x.
Proof. exists []. split; [reflexivity | simpl; lia]. Qed.

Lemma follows_trans x y z : follows x y -> follows y z -> follows x z.
Proof.
  intros (p & Hp & Hi) (q & Hq & Hj). exists (p ++ q). split.
  - rewrite Hp, Hq, app_assoc. reflexivity.
  - rewrite length_app. lia.
Qed.

Lemma firstSome_app c a b :
  firstSome c (a ++ b) =
  match firstSome c a with Some z => Some z | None => firstSome c b end.
Proof.
  induction a as [|y a IH]; simpl; [reflexivity|].
  destruct (c y); [reflexivity | exact IH].
Qed.

Lemma firstSome_one c x : firstSome c [x] = c x.
Proof. simpl. destruct (c x); reflexivity. Qed.

Lemma firstSome_ext c c' ys :
  (forall y, In y ys -> c y = c' y) -> firstSome c ys = firstSome c' ys.
Proof.
  induction ys as [|y ys IH]; intros H; simpl; [reflexivity|].
  rewrite (H y (or_introl eq_refl)), IH; [reflexivity|].
  intros z Hz. apply H. right. exact Hz.
Qed.

Lemma firstSome_bind (k : state -> continuation -> option state) x ys :
  Forall (follows x) ys ->
  (forall y, In y ys ->
     exists zs, Forall (follows y) zs /\ forall c, k y c = firstSome c zs) ->
  exists zs, Forall (follows x) zs
             /\ forall c, firstSome (fun y => k y c) ys = firstSome c zs.
Proof.
  induction ys as [|y ys IH]; intros Hf Hk.
  - exists []. split; [constructor | reflexivity].
  - inversion Hf as [|? ? Hy Hys]; subst.
    destruct IH as (zt & Ht & Et); [exact Hys | intros z Hz; apply Hk; right; exact Hz|].
    destruct (Hk y (or_introl eq_refl)) as (za & Ha & Ea).
    exists (za ++ zt). split.
    + apply Forall_app. split; [|exact Ht].
      apply Forall_forall. intros z Hz. rewrite Forall_forall in Ha.
      exact (follows_trans Hy (Ha z Hz)).
    + intros c. simpl. rewrite Ea, firstSome_app, Et. reflexivity.
Qed.

Lemma step1_enumerates p : enumerates (step1 p).
Proof.
  intros x. unfold step1. destruct (rest x) as [|ch t] eqn:E.
  - exists []. split; [constructor | reflexivity].
  - destruct (p ch).
    + exists [mkMatchState (S (endIndex x)) t (captures x)]. split.
      * repeat constructor. exists [ch]. simpl. split; [exact E | lia].
      * intros c. rewrite firstSome_one. reflexivity.
    + exists []. split; [constructor | reflexivity].
Qed.

Lemma repeatMatcher_enumerates m greedy :
  enumerates m ->
  forall fuel min, enumerates (fun x c => repeatMatcher fuel m min greedy x c).
Proof.
  intros Hm fuel. induction fuel as [|fuel IH]; intros min x.
  - exists []. split; [constructor | reflexivity].
  - destruct (Hm x) as (ys & Hys & Em).
    destruct (@firstSome_bind
                (fun y c => if Nat.eqb min 0 && Nat.eqb (endIndex y) (endIndex x)
                            then None
                            else repeatMatcher fuel m (Nat.pred min) greedy y c)
                x ys Hys) as (zs & Hzs & Ez).
    { intros y _. destruct (Nat.eqb min 0 && Nat.eqb (endIndex y) (endIndex x)).
      - exists []. split; [constructor | reflexivity].
      - exact (IH (Nat.pred min) y). }
    cbn [repeatMatcher].
    destruct (Nat.eqb min 0) eqn:E0; cbn [negb].
    + destruct greedy.
      * exists (zs ++ [x]). split.
        -- apply Forall_app. split; [exact Hzs | repeat constructor; apply follows_refl].
        -- intros c. rewrite Em, firstSome_app, firstSome_one, <- Ez.
           cbn [andb]. reflexivity.
      * exists (x :: zs). split.
        -- constructor; [apply follows_refl | exact Hzs].
        -- intros c. simpl. rewrite Em, <- Ez. cbn [andb]. reflexivity.
    + exists zs. split; [exact Hzs|].
      intros c. rewrite Em, <- Ez. cbn [andb]. reflexivity.
Qed.

Lemma compile_enumerates dotAll r : enumerates (compile dotAll r).
Proof.
  induction r as [| k | | | | r1 IH1 r2 IH2 | r1 IH1 r2 IH2
                 | min greedy r' IH | i r' IH | r' IH | ]; cbn [compile].
  - intros x. exists [x]. split; [repeat constructor; apply follows_refl|].
    intros c. rewrite firstSome_one. reflexivity.
  - apply step1_enumerates.
  - apply step1_enumerates.
  - apply step1_enumerates.
  - apply step1_enumerates.
  - intros x. destruct (IH1 x) as (ys & Hys & E1).
    destruct (@firstSome_bind (compile dotAll r2) x ys Hys) as (zs & Hzs & Ez).
    { intros y _. exact (IH2 y). }
    exists zs. split; [exact Hzs|]. intros c. rewrite E1. apply Ez.
  - intros x. destruct (IH1 x) as (y1 & H1 & E1). destruct (IH2 x) as (y2 & H2 & E2).
    exists (y1 ++ y2). split; [apply Forall_app; split; assumption|].
    intros c. rewrite firstSome_app, E1, E2. reflexivity.
  - intros x.
    exact (repeatMatcher_enumerates greedy IH
             (S (min + List.length (rest x))) min x).
  - intros x. destruct (IH x) as (ys & Hys & E).
    exists (map (fun y => mkMatchState (endIndex y) (rest y)
                            ((i, (endIndex x, endIndex y)) :: captures y)) ys).
    split.
    + apply Forall_forall. intros z Hz. apply in_map_iff in Hz.
      destruct Hz as (y & <- & Hy). rewrite Forall_forall in Hys.
      exact (Hys y Hy).
    + intros c. rewrite E. clear. induction ys as [|y ys IHy]; simpl; [reflexivity|].
      rewrite IHy. reflexivity.
  - intros x. destruct (IH x) as (ys & Hys & E). rewrite E.
    destruct ys as [|y ys]; simpl.
    + exists []. split; [constructor | reflexivity].
    + exists [mkMatchState (endIndex x) (rest x) (captures y)]. split.
      * repeat constructor. exists []. simpl. split; [reflexivity | lia].
      * intros c. rewrite firstSome_one. reflexivity.
  - intros x. destruct (Nat.eqb (endIndex x) 0).
    + exists [x]. split; [repeat constructor; apply follows_refl|].
      intros c. rewrite firstSome_one. reflexivity.
    + exists []. split; [constructor | reflexivity].
Qed.

Lemma enumerates_ext m x c c' :
  enumerates m -> (forall y, follows x y -> c y = c' y) -> m x c = m x c'.
Proof.
  intros Hm H. destruct (Hm x) as (ys & Hys & E). rewrite !E.
  apply firstSome_ext. intros y Hy. apply H.
  rewrite Forall_forall in Hys. exact (Hys y Hy).
Qed.

Lemma follows_shorter x y :
  follows x y ->
  List.length (rest y) <= List.length (rest x)
  /\ (endIndex y <> endIndex x -> List.length (rest y) < List.length (rest x))
  /\ endIndex y = endIndex x + (List.length (rest x) - List.length (rest y)).
Proof.
  intros (pre & Hp & Hi). rewrite Hp, length_app. repeat split; lia.
Qed.

(** One round of RepeatMatcher depends on the later rounds only at
    states that follow, and that have moved on once the lower bound is
    met. *)
Lemma repeat_round_ext (m : matcher) (min : nat) (greedy : bool) (x : state)
    (c : continuation)
    (rec1 rec2 : nat -> state -> continuation -> option state) :
  enumerates m ->
  (forall y, follows x y -> (min = 0 -> endIndex y <> endIndex x) ->
     rec1 (Nat.pred min) y c = rec2 (Nat.pred min) y c) ->
  (let d : continuation := fun y =>
     if Nat.eqb min 0 && Nat.eqb (endIndex y) (endIndex x) then None
     else rec1 (Nat.pred min) y c in
   if negb (Nat.eqb min 0) then m x d
   else if greedy then match m x d with Some z => Some z | None => c x end
   else match c x with Some z => Some z | None => m x d end)
  =
  (let d : continuation := fun y =>
     if Nat.eqb min 0 && Nat.eqb (endIndex y) (endIndex x) then None
     else rec2 (Nat.pred min) y c in
   if negb (Nat.eqb min 0) then m x d
   else if greedy then match m x d with Some z => Some z | None => c x end
   else match c x with Some z => Some z | None => m x d end).
Proof.
  intros Hm H. cbv zeta.
  assert (E : m x (fun y : state =>
                     if Nat.eqb min 0 && Nat.eqb (endIndex y) (endIndex x)
                     then @None state
                     else rec1 (Nat.pred min) y c)
              = m x (fun y : state =>
                     if Nat.eqb min 0 && Nat.eqb (endIndex y) (endIndex x)
                     then @None state
                     else rec2 (Nat.pred min) y c)).
  { apply enumerates_ext; [exact Hm|]. intros y Hy.
    destruct (Nat.eqb_spec min 0) as [E0|E0]; cbn [andb].
    - destruct (Nat.eqb_spec (endIndex y) (endIndex x)) as [E1|E1]; [reflexivity|].
      apply H; [exact Hy | intros _; exact E1].
    - apply H; [exact Hy | intros E; contradiction]. }
  rewrite E. reflexivity.
Qed.

Lemma repeatMatcher_fuel m greedy :
  enumerates m ->
  forall fuel min x c,
    min + List.length (rest x) < fuel ->
    repeatMatcher fuel m min greedy x c = repeatMatcher (S fuel) m min greedy x c.
Proof.
  intros Hm fuel. induction fuel as [|fuel IH]; intros min x c Hlt; [lia|].
  refine (@repeat_round_ext m min greedy x c
            (fun a y k => repeatMatcher fuel m a greedy y k)
            (fun a y k => repeatMatcher (S fuel) m a greedy y k) Hm _).
  intros y Hy Hmove. cbv beta.
  destruct (follows_shorter Hy) as (Hle & Hlt' & _).
  apply IH. destruct min as [|min].
  - specialize (Hlt' (Hmove eq_refl)). simpl. lia.
  - simpl. lia.
Qed.

(** The fuel that [compile] hands to a repetition is enough: any more
    fuel gives the same result. *)
Lemma repeatMatcher_enough dotAll r min greedy x c extra :
  repeatMatcher (S (min + List.length (rest x)) + extra) (compile dotAll r)
                min greedy x c
  = compile dotAll (Rep min greedy r) x c.
Proof.
  cbn [compile]. induction extra as [|extra IH].
  - rewrite Nat.add_0_r. reflexivity.
  - rewrite Nat.add_succ_r, <- IH. symmetry.
    apply repeatMatcher_fuel; [apply compile_enumerates | lia].
Qed.

Lemma matchAt_bounds dotAll r s q m :
  matchAt dotAll r s q = Some m ->
  q <= lastIndex m /\ lastIndex m <= Nat.max q (List.length s).
Proof.
  unfold matchAt. intros H.
  destruct (compile_enumerates dotAll r (mkMatchState q (skipn q s) []))
    as (ys & Hys & E).
  rewrite E in H. destruct ys as [|y ys]; simpl in H; [discriminate H|].
  injection H as <-. cbn [lastIndex].
  inversion Hys as [|? ? Hy _]; subst.
  destruct (follows_shorter Hy) as (Hle & _ & Hi). cbn [rest endIndex] in *.
  rewrite length_skipn in *. lia.
Qed.

Lemma splitLoop_fuel dotAll r s :
  forall fuel p q,
    p <= q ->
    2 * (List.length s - q) + (if Nat.ltb p q then 1 else 0) < fuel ->
    splitLoop fuel dotAll r s p q = splitLoop (S fuel) dotAll r s p q.
Proof.
  intros fuel. induction fuel as [|fuel IH]; intros p q Hpq Hlt; [lia|].
  change (splitLoop (S (S fuel)) dotAll r s p q) with
    (if Nat.ltb q (List.length s) then
       match matchAt dotAll r s q with
       | None => splitLoop (S fuel) dotAll r s p (S q)
       | Some m =>
           let e := Nat.min (lastIndex m) (List.length s) in
           if Nat.eqb e p then splitLoop (S fuel) dotAll r s p (S q)
           else Some (firstn (q - p) (skipn p s)) :: group m
                  ++ splitLoop (S fuel) dotAll r s e e
       end
     else [Some (skipn p s)]).
  cbn [splitLoop].
  destruct (Nat.ltb_spec q (List.length s)) as [Hq|Hq]; [|reflexivity].
  assert (Hnext : splitLoop fuel dotAll r s p (S q)
                  = splitLoop (S fuel) dotAll r s p (S q)).
  { apply IH; [lia|]. destruct (Nat.ltb_spec p (S q)); destruct (Nat.ltb p q); lia. }
  destruct (matchAt dotAll r s q) as [m|] eqn:Em; [|exact Hnext].
  cbv zeta. destruct (Nat.eqb_spec (Nat.min (lastIndex m) (List.length s)) p)
    as [He|He]; [exact Hnext|].
  destruct (matchAt_bounds _ _ _ _ Em) as (Hlo & _).
  rewrite IH; [reflexivity | lia |].
  rewrite Nat.ltb_irrefl.
  destruct (Nat.ltb_spec p q); lia.
Qed.

(** The fuel that [split] hands to its loop is enough. *)
Lemma splitLoop_enough dotAll r s extra :
  splitLoop (2 * List.length s + 2 + extra) dotAll r s 0 0
  = splitLoop (2 * List.length s + 2) dotAll r s 0 0.
Proof.
  induction extra as [|extra IH].
  - rewrite Nat.add_0_r. reflexivity.
  - rewrite Nat.add_succ_r, <- IH. symmetry.
    apply splitLoop_fuel; [lia | simpl; lia].
Qed.

End RegExpFacts.

(* ================================================================== *)
(** ** Properties of the JSON parser *)
(* ================================================================== *)

Module JSONFacts.
Import JS JSON.

(** Texts of the JSON grammar are accepted. *)
Lemma parse_accepts :
  forallb parses
      [ "{}"; "[]"; " [ 1 , -0.5e+10 , true,false,null ] "; "0"; "-0"; "1E5";
        "`s`"; "{`a`:[1,2,{`b`:null}],`c`:`x\n\u00e9\\`}";
        "{`question`:`q`,`options`:[]}" ]%string
  = true.
Proof. vm_compute. reflexivity. Qed.

(** Texts outside it are refused: trailing commas, leading zeros and
    signs, missing separators, bare words, unclosed strings and
    containers, unknown escapes, empty input, trailing input. *)
Lemma parse_refuses :
  existsb parses
      [ "{`a`:1,}"; "[1,]"; "01"; "+1"; ".5"; "1."; "1e"; "-"; "[1 2]";
        "{`a`:1 `b`:2}"; "{a:1}"; "{`a`}"; "{`a`:}"; "tru"; "nulll"; "`abc";
        "`\x`"; "`\u12`"; "[[]"; "{]"; "[}"; ""; " "; "1 2"; "{`a`:1}}" ]%string
  = false.
Proof. vm_compute. reflexivity. Qed.

(** Of two members with one name the later is read. *)
Lemma member_reads_last :
  match parse (litq "{`question`:`first`,`question`:`second`}") with
  | Some v => member v (lit "question")
  | None => None
  end = Some (JString (lit "second")).
Proof. vm_compute. reflexivity. Qed.

End JSONFacts.

(* ================================================================== *)
(** ** Properties of the formatter and the segmenter *)
(* ================================================================== *)

Module ChatMessageFacts.
Import JS RegExp ChatMessage Statements.

Lemma In_skipn (q : nat) (l : jsstring) (c : N) : In c (skipn q l) -> In c l.
Proof.
  revert l; induction q as [|q IH]; intros [|x l] H; simpl in H; auto.
  right. apply IH, H.
Qed.

(** The section marker begins with a line feed, so it matches nowhere
    in a text that has none. *)
Lemma matchAt_sectionMarker (text : jsstring) (q : nat) :
  Forall (fun c => c <> LF) text -> matchAt false sectionMarker text q = None.
Proof.
  intros H. unfold matchAt, sectionMarker, sectionMarkerSource, Cat.
  cbn [fold_right compile]. unfold step1. cbn [rest].
  assert (Hq : Forall (fun c => c <> LF) (skipn q text)).
  { apply Forall_forall. intros c Hc. rewrite Forall_forall in H.
    apply H. exact (In_skipn q text c Hc). }
  destruct (skipn q text) as [|ch t]; [reflexivity|].
  inversion Hq as [|? ? Hch _]; subst.
  apply not_eq_sym, N.eqb_neq in Hch. rewrite Hch. reflexivity.
Qed.

Lemma exec_sectionMarker (text : jsstring) :
  Forall (fun c => c <> LF) text -> exec false sectionMarker text = None.
Proof.
  intros H. unfold exec. generalize 0. generalize (List.length text).
  intros n; induction n as [|n IH]; intros q; simpl;
    rewrite (matchAt_sectionMarker q H); [reflexivity | apply IH].
Qed.

(** X17.  A text of a single line is never segmented, whatever headings
    it holds. *)
Lemma parseBotResponse_single_line (text : jsstring) :
  Forall (fun c => c <> LF) text -> parseBotResponse text = Normal None.
Proof.
  intros H. unfold parseBotResponse. rewrite (exec_sectionMarker H).
  reflexivity.
Qed.

(** C2.  On the scenario text parseBotResponse does return a result, but
    not the one the scenario describes: the section marker asks for a
    line feed before the number, so the heading that opens the text is
    not a section boundary.  The first numbered block becomes the intro
    and three sections remain; the outro is empty. *)
Theorem parseBotResponse_scenario :
  parseBotResponse adviceScenario =
  Normal (Some (mkParsed
    (lit "1. **Likely Condition:** This could be tension headache.")
    [ mkSection (lit "What to Do Now") (lit "Rest and hydrate.");
      mkSection (lit "Diet & Lifestyle") (lit "Reduce caffeine.");
      mkSection (lit "When to See a Doctor")
                ([8226%N] ++ lit " Fever over 102" ++ [176%N] ++ lit "F") ]
    [])).
Proof. vm_compute. reflexivity. Qed.

(** The same text behind a line feed is segmented into the four
    sections: the first heading is missed only at the very start. *)
Lemma parseBotResponse_scenario_after_newline :
  parseBotResponse (LF :: adviceScenario) =
  Normal (Some (mkParsed []
    [ mkSection (lit "Likely Condition") (lit "This could be tension headache.");
      mkSection (lit "What to Do Now") (lit "Rest and hydrate.");
      mkSection (lit "Diet & Lifestyle") (lit "Reduce caffeine.");
      mkSection (lit "When to See a Doctor")
                ([8226%N] ++ lit " Fever over 102" ++ [176%N] ++ lit "F") ]
    [])).
Proof. vm_compute. reflexivity. Qed.

(** Well-formed markup is rendered as bold and link runs between the
    plain pieces. *)
Lemma FormattedText_markup :
  FormattedText (lit "Rest. **Drink water** and see [a map](https://maps.example/q) now")
  = Normal [ PlainRun (lit "Rest. ");
             BoldRun (lit "Drink water");
             PlainRun (lit " and see ");
             LinkRun (Some (lit "a map")) (Some (lit "https://maps.example/q"));
             PlainRun (lit " now") ].
Proof. vm_compute. reflexivity. Qed.

(** C4.  A piece that the split leaves as plain text is still rendered
    as a bold run when it starts and ends with two asterisks, and the
    two tests may overlap: for the texts of two and of three asterisks
    the only run is an empty bold run.  The asterisks of the second text
    are not a pair of delimiters, its text is lost, and two different
    texts yield the same runs. *)
Theorem FormattedText_asterisks :
  FormattedText (lit "***") = Normal [BoldRun []]
  /\ FormattedText (lit "**") = Normal [BoldRun []]
  /\ split false inlinePattern (lit "***") = [Some (lit "***")].
Proof. vm_compute. repeat split; reflexivity. Qed.

End ChatMessageFacts.

(* ================================================================== *)
(** ** Properties of the response classifier *)
(* ================================================================== *)

Module ClassifierFacts.
Import JS JSON Types App Statements.

Lemma truthy_nonempty (s : jsstring) : truthy s = true <-> s <> [].
Proof. destruct s; simpl; split; congruence. Qed.

Lemma cleanAndParseJson_Some text q os :
  cleanAndParseJson text = Some (Payload.mk q os) <-> questionShape text q os.
Proof.
  unfold cleanAndParseJson, questionShape.
  set (i := indexOf (lit "{") text).
  set (j := lastIndexOf (lit "}") text).
  cbv zeta.
  destruct (Z.eqb_spec i (-1)) as [Hi|Hi]; simpl.
  { split; [discriminate | intros (H & _); contradiction]. }
  destruct (Z.eqb_spec j (-1)) as [Hj|Hj]; simpl.
  { split; [discriminate | intros (_ & H & _); contradiction]. }
  destruct (Z.ltb_spec j i) as [Hlt|Hle].
  { split; [discriminate | intros (_ & _ & H & _); lia]. }
  destruct (JSON.parse (substring text i (j + 1))) as [parsed|] eqn:Hp.
  2:{ split; [discriminate | intros (_ & _ & _ & ms & H & _); discriminate]. }
  split.
  - intros H. repeat split; try assumption.
    destruct parsed as [| | | | |ms]; simpl in H; try discriminate.
    exists ms.
    destruct (lookup (lit "question") ms) as [[| | |q'| |]|]; try discriminate.
    destruct (lookup (lit "options") ms) as [[| | | |os'|]|]; try discriminate.
    destruct (truthy q') eqn:Hq; try discriminate.
    injection H as -> ->.
    repeat split; try reflexivity.
    apply truthy_nonempty; assumption.
  - intros (_ & _ & _ & ms & Hms & Hq & Hne & Ho).
    injection Hms as ->. simpl. rewrite Hq, Ho.
    apply truthy_nonempty in Hne. rewrite Hne. reflexivity.
Qed.

Lemma emptyOptionsText_parsed :
  cleanAndParseJson emptyOptionsText =
  Some (Payload.mk (lit "Any other symptoms?") []).
Proof. vm_compute. reflexivity. Qed.

(** C1, as stated, fails.  The text [emptyOptionsText] has no question
    shape with one or more string options, so it should be classified
    as advice; it is classified as a clarifying question whose option
    list is empty. *)
Lemma classify_empty_options_not_advice :
  (~ exists q ss, strictQuestionShape emptyOptionsText q ss)
  /\ classify emptyOptionsText =
     ClarifyingQuestion (Payload.mk (lit "Any other symptoms?") [])
  /\ classify emptyOptionsText <> FreeformAdvice emptyOptionsText.
Proof.
  assert (Hc : classify emptyOptionsText =
               ClarifyingQuestion (Payload.mk (lit "Any other symptoms?") [])).
  { unfold classify. rewrite emptyOptionsText_parsed. reflexivity. }
  split; [|split; [exact Hc | rewrite Hc; discriminate]].
  intros (q & ss & Hs & Hlen).
  apply cleanAndParseJson_Some in Hs.
  rewrite emptyOptionsText_parsed in Hs. injection Hs as _ Hos.
  destruct ss as [|s ss]; [simpl in Hlen; lia | discriminate Hos].
Qed.

(** C1, amended: the options may be any number of strings, none
    included.  A text has the question shape with string options exactly
    when it is classified as a clarifying question with that question
    and those options as the payload.  A text that has no question shape
    at all (no braces, braces out of order, no parse, no non-empty
    string question, no array of options) is classified as advice and
    carries the whole text, and a text classified as advice has no
    question shape with string options.  An array that holds something
    other than a string is outside the statement.  [classify] is a
    total function: no text makes it throw. *)
Theorem classify_by_shape (text : jsstring) :
  (forall q ss, stringQuestionShape text q ss <->
     classify text = ClarifyingQuestion (Payload.mk q (map JString ss)))
  /\ ((~ exists q os, questionShape text q os) ->
        classify text = FreeformAdvice text)
  /\ (classify text = FreeformAdvice text ->
        ~ exists q ss, stringQuestionShape text q ss).
Proof.
  unfold classify, stringQuestionShape. split; [|split].
  - intros q ss. rewrite <- cleanAndParseJson_Some.
    destruct (cleanAndParseJson text) as [[q' os']|]; split; intros H;
      try discriminate; injection H as -> ->; reflexivity.
  - intros H. destruct (cleanAndParseJson text) as [[q' os']|] eqn:E;
      [|reflexivity].
    exfalso. apply H. exists q', os'. apply cleanAndParseJson_Some, E.
  - intros H (q & ss & Hs). apply cleanAndParseJson_Some in Hs.
    rewrite Hs in H. discriminate H.
Qed.

(** The witness: the question of the specification's scenario, with
    three string options, and a sentence of advice without braces. *)
Lemma classify_by_shape_witness :
  classify durationText =
    ClarifyingQuestion
      (Payload.mk (lit "How long have you had this?")
                  (map JString [lit "Today"; lit "A few days";
                                lit "More than a week"]))
  /\ classify (lit "Rest and drink water.")
     = FreeformAdvice (lit "Rest and drink water.").
Proof.
  split.
  - apply (proj1 (proj1 (classify_by_shape durationText) _ _)).
    unfold stringQuestionShape. apply cleanAndParseJson_Some.
    vm_compute. reflexivity.
  - apply (proj1 (proj2 (classify_by_shape (lit "Rest and drink water.")))).
    intros (q & os & H). apply cleanAndParseJson_Some in H.
    vm_compute in H. discriminate H.
Defined.

End ClassifierFacts.

(* ================================================================== *)
(** ** Properties of the controller *)
(* ================================================================== *)

Module AppFacts.
Import JS JSON Types GeminiService App Statements JSFacts.

(** *** Properties of every message that enters the store *)

(** A property that holds of each message the controller creates holds
    of every message of the store, whatever happens. *)
Section StoreInvariant.

Variable P : Message -> Prop.

Hypothesis P_greeting : P greeting.
Hypothesis P_initError : P initError.
Hypothesis P_user : forall now text image,
  P (mkMessage (lit "user-" ++ ofNumber now) USER text
               (option_map objectUrl image) None None).
Hypothesis P_bot : forall now responseText, P (botResponse now responseText).
Hypothesis P_error : forall now, P (errorMessage now).
Hypothesis P_locating : forall now, P (locatingMessage now).

Local Abbreviation Inv := (storeSatisfies P).

Ltac store :=
  unfold storeSatisfies;
  cbn [messages setMessages setIsLoading setIsBotTyping setChat setSends
       setGeos revokeObjectURL option_map negb].

Lemma Forall_append (m : Message) (l : list Message) :
  Forall P l -> P m -> Forall P (append m l).
Proof.
  intros Hl Hm. unfold append. apply Forall_app. split; [assumption|].
  constructor; [assumption | constructor].
Qed.

Lemma settle_Inv now p r st : Inv st -> Inv (settle now p r st).
Proof.
  unfold storeSatisfies, settle. intros H.
  destruct r as [responseText|]; destruct (revokeUrl p) as [u|];
    try destruct (truthy u); store; apply Forall_append; auto.
Qed.

Lemma callModel_Inv now p imagePart st : Inv st -> Inv (callModel now p imagePart st).
Proof.
  unfold callModel. intros H.
  destruct (streamResponse_begin (chat st) (sendText p) imagePart);
    try (apply settle_Inv; assumption).
  exact H.
Qed.

Lemma handleSendMessage_Inv flag now text image isHidden st :
  Inv st -> Inv (handleSendMessage flag now text image isHidden st).
Proof.
  unfold handleSendMessage. intros H.
  destruct (_ || flag); [assumption|].
  destruct isHidden, image as [f|]; cbn [negb];
    try apply callModel_Inv; store; try exact H; apply Forall_append; try exact H.
  - apply (P_user now text (Some f)).
  - apply (P_user now text None).
Qed.

Lemma handleLocationRequest_Inv now geolocation st :
  Inv st -> Inv (handleLocationRequest now geolocation st).
Proof.
  unfold handleLocationRequest. intros H.
  destruct geolocation; cbn [negb].
  - store. apply Forall_app. split; [assumption|].
    repeat constructor; [apply (P_user now _ None) | apply P_locating].
  - apply handleSendMessage_Inv; assumption.
Qed.

Lemma geoCallback_Inv now g r st : Inv st -> Inv (geoCallback now g r st).
Proof.
  unfold geoCallback. intros H. apply handleSendMessage_Inv.
  store. apply Forall_forall. intros m Hm.
  apply filter_In in Hm. destruct Hm as [Hm _].
  unfold storeSatisfies in H. rewrite Forall_forall in H. auto.
Qed.

Lemma handleOptionClick_Inv now geolocation optionText st :
  Inv st -> Inv (handleOptionClick now geolocation optionText st).
Proof.
  unfold handleOptionClick. intros H.
  destruct (_ && _);
    [apply handleLocationRequest_Inv | apply handleSendMessage_Inv]; assumption.
Qed.

Lemma clickOption_Inv now geolocation index k st :
  Inv st -> Inv (clickOption now geolocation index k st).
Proof.
  unfold clickOption. intros H.
  destruct (nth_error (messages st) index) as [m|]; [|assumption].
  destruct (role m), (isQuestion m) as [[|]|], (options m) as [os|];
    try assumption;
    (destruct (nth_error os k) as [[| | |optionText| |]|]; [..|assumption];
     destruct (optionsDisabled st index); try assumption;
     apply handleOptionClick_Inv; assumption).
Qed.

Lemma initChat_Inv ok st : Inv (initChat ok st).
Proof.
  unfold initChat. destruct ok; store; repeat constructor; assumption.
Qed.

Lemma step_Inv st e : Inv st -> Inv (step st e).
Proof.
  intros H. destruct e as [ok|confirmed ok|now text image|now geolocation index k
                          |now k base64|now k stream|now k result]; cbn [step].
  - apply initChat_Inv.
  - destruct confirmed; [apply initChat_Inv | assumption].
  - unfold handleSend. destruct (_ && _); [|assumption].
    apply handleSendMessage_Inv; assumption.
  - apply clickOption_Inv; assumption.
  - destruct (nth_error (sends st) k) as [p|]; [|assumption].
    destruct (stage p); [|assumption].
    destruct (sendImage p); [|assumption].
    destruct base64; [apply callModel_Inv | apply settle_Inv]; exact H.
  - destruct (nth_error (sends st) k) as [p|]; [|assumption].
    destruct (stage p); [assumption|].
    destruct stream; apply settle_Inv; exact H.
  - destruct (nth_error (geos st) k) as [g|]; [|assumption].
    apply geoCallback_Inv; exact H.
Qed.

Lemma run_Inv es : forall st, Inv st -> Inv (run st es).
Proof.
  induction es as [|e es IH]; intros st H; [exact H|].
  cbn [run fold_left]. apply IH, step_Inv, H.
Qed.

Lemma reachable_Inv es : Forall P (messages (run initial es)).
Proof. apply run_Inv. constructor. Qed.

End StoreInvariant.

(** *** Options and the question flag *)

Lemma emptyOptionsRun_store :
  messages (run initial emptyOptionsRun) =
  [ greeting;
    mkMessage (lit "user-1") USER (lit "Hi") None None None;
    mkMessage (lit "bot-2") BOT (lit "Any other symptoms?") None (Some [])
              (Some true) ].
Proof. vm_compute. reflexivity. Qed.

Lemma question_without_options (l : list Message) (m : Message) :
  In m l -> isQuestion m = Some true -> options m = Some [] ->
  ~ Forall optionsIffQuestion l.
Proof.
  intros Hin Hq Ho Hall. rewrite Forall_forall in Hall.
  destruct (Hall m Hin) as [_ H]. specialize (H Hq).
  unfold hasOptions in H. rewrite Ho in H. discriminate H.
Qed.

(** C3, as stated, fails: after the run above the store holds a
    question whose option list is empty. *)
Lemma store_holds_question_without_options :
  ~ Forall optionsIffQuestion (messages (run initial emptyOptionsRun)).
Proof.
  rewrite emptyOptionsRun_store.
  apply (@question_without_options _
           (mkMessage (lit "bot-2") BOT (lit "Any other symptoms?") None
                      (Some []) (Some true))).
  - right; right; left; reflexivity.
  - reflexivity.
  - reflexivity.
Qed.

(** C3, amended: whatever happens, every message of the store has an
    option list exactly when it is flagged as a question (the list is
    the array of the model's JSON and may be empty), so a non-empty
    option list is only found on a question. *)
Theorem options_present_iff_question (es : list Event) :
  Forall optionsPresentIffQuestion (messages (run initial es)).
Proof.
  apply reachable_Inv;
    try (intros; split; [split; intros H; [contradiction H; reflexivity
                                          | discriminate H]
                        | intros H; discriminate H]).
  intros now responseText. unfold botResponse.
  destruct (cleanAndParseJson responseText) as [parsedJson|].
  - split; [split; intros _; [reflexivity | discriminate] | reflexivity].
  - split; [split; intros H; [contradiction H; reflexivity | discriminate H]
           | intros H; discriminate H].
Qed.

(** *** Failures of the model collaborator and the busy flag *)

Lemma find_rev_append_skip (f : Message -> bool) (m : Message) (l : list Message) :
  f m = false -> find f (rev (l ++ [m])) = find f (rev l).
Proof. intros H. rewrite rev_app_distr. simpl. rewrite H. reflexivity. Qed.

Lemma messages_settle_Throw now p st :
  messages (settle now p Throw st) = messages st ++ [errorMessage now].
Proof.
  unfold settle. destruct (revokeUrl p) as [u|]; try destruct (truthy u);
    reflexivity.
Qed.

Lemma isLoading_settle now p r st : isLoading (settle now p r st) = false.
Proof.
  unfold settle. destruct r, (revokeUrl p) as [u|]; try destruct (truthy u);
    reflexivity.
Qed.

(** C6.  [settle] is the end of handleSendMessage: what runs once the
    awaited call of the model collaborator has returned or thrown.
    - When the collaborator throws, exactly one message is appended, the
      System notice; the assistant's turns, and with them the question
      that option selection consults, are as before.
    - Whatever the outcome (a reply, an empty stream with its apology
      text, or a failure), the busy flag is released.
    - Every failure of the collaborator ends there: the rejection
      without a chat, and a request that fails while outstanding; so
      does every completed stream. *)
Theorem failure_is_surfaced_and_flag_released (now : N) (p : PendingSend)
    (st : State) :
  (messages (settle now p Throw st) = messages st ++ [errorMessage now]
   /\ role (errorMessage now) = SYSTEM
   /\ text (errorMessage now) = lit "Sorry, something went wrong. Please try again."
   /\ assistantTurns (settle now p Throw st) = assistantTurns st
   /\ lastQuestion (settle now p Throw st) = lastQuestion st)
  /\ (forall r, isLoading (settle now p r st) = false)
  /\ (forall imagePart, chat st = false ->
        callModel now p imagePart st = settle now p Throw st)
  /\ (forall k parts stream,
        nth_error (sends st) k = Some p -> stage p = AwaitingModel parts ->
        step st (ModelDone now k stream) =
        settle now p
          (match stream with
           | Normal chunks => Normal (streamResponse_end chunks)
           | Throw => Throw
           end)
          (setSends (removeNth k) st)).
Proof.
  repeat split.
  - apply messages_settle_Throw.
  - unfold assistantTurns. rewrite messages_settle_Throw.
    rewrite filter_app. simpl. apply app_nil_r.
  - unfold lastQuestion. rewrite messages_settle_Throw.
    apply find_rev_append_skip. reflexivity.
  - intros r. apply isLoading_settle.
  - intros imagePart Hchat. unfold callModel, streamResponse_begin.
    rewrite Hchat. reflexivity.
  - intros k parts stream Hk Hs. cbn [step]. rewrite Hk, Hs.
    destruct stream; reflexivity.
Qed.

(** The witness: a request that fails while outstanding. *)
Lemma failure_is_surfaced_witness :
  let st := run initial [Mount true; Submit 1 (lit "Hi") None] in
  let p := mkPendingSend (lit "Hi") None None (AwaitingModel [Text (lit "Hi")]) in
  step st (ModelDone 2 0 Throw) = settle 2 p Throw (setSends (removeNth 0) st).
Proof.
  intros st p.
  apply (proj2 (proj2 (proj2 (failure_is_surfaced_and_flag_released 2 p st)))
           0 [Text (lit "Hi")] Throw); vm_compute; reflexivity.
Defined.

(** *** The busy flag *)

Lemma clickOption_disabled now geolocation index k st :
  optionsDisabled st index = true ->
  clickOption now geolocation index k st = st.
Proof.
  intros H. unfold clickOption. rewrite H.
  destruct (nth_error (messages st) index) as [m|]; [|reflexivity].
  destruct (role m), (isQuestion m) as [[|]|], (options m) as [os|];
    try reflexivity; destruct (nth_error os k); reflexivity.
Qed.

(** What the guard does achieve: a handler that sees the flag set
    changes nothing, be it handleSendMessage itself, the input box or an
    option button. *)
Lemma busy_flag_refuses (st : State) :
  isLoading st = true ->
  (forall now text image isHidden,
     handleSendMessage (isLoading st) now text image isHidden st = st)
  /\ (forall now text image, handleSend now text image st = st)
  /\ (forall now geolocation index k,
        clickOption now geolocation index k st = st).
Proof.
  intros H. repeat split; intros.
  - unfold handleSendMessage. rewrite H, orb_true_r. reflexivity.
  - unfold handleSend. rewrite H, andb_false_r. reflexivity.
  - apply clickOption_disabled. unfold optionsDisabled. rewrite H. reflexivity.
Qed.

(** C5.  The guard reads the flag of the render that created the
    callback, and waiting for the position does not set the flag.  At
    the end of [overlapRun] the flag is set and one request is
    outstanding; when the position arrives, the geolocation callback
    removes the placeholder from the store and its submission passes the
    guard, so that two requests are outstanding. *)
Theorem second_request_while_busy :
  let st := run initial overlapRun in
  let st' := step st positionArrives in
  isLoading st = true /\ inFlight st = 1
  /\ inFlight st' = 2
  /\ List.length (messages st) = 6 /\ List.length (messages st') = 5.
Proof. vm_compute. repeat split; reflexivity. Qed.

(** Starting a new chat releases the flag while a request is
    outstanding, with the same effect. *)
Lemma second_request_after_new_chat :
  let st := run initial [ Mount true; Submit 1 (lit "I have a headache") None;
                          NewChat true true ] in
  inFlight st = 1 /\ isLoading st = false
  /\ inFlight (step st (Submit 2 (lit "Hello again") None)) = 2.
Proof. vm_compute. repeat split; reflexivity. Qed.

(** *** Option buttons *)

Lemma lastAssistantFrom_last (l : list Message) :
  forall i index m,
    nth_error l index = Some m -> S index = List.length l ->
    isAssistant m = true ->
    lastAssistantFrom l i = Some (i + index).
Proof.
  induction l as [|x l IH]; intros i index m Hn Hlen Hm.
  - destruct index; discriminate Hn.
  - destruct index as [|index]; simpl in Hn, Hlen.
    + injection Hn as ->. destruct l; [|discriminate Hlen].
      simpl. rewrite Hm. f_equal. lia.
    + simpl. rewrite (IH (S i) index m Hn); [f_equal; lia | lia | exact Hm].
Qed.

Lemma enabled_is_last (st : State) (index : nat) (m : Message) :
  nth_error (messages st) index = Some m ->
  optionsDisabled st index = false ->
  S index = List.length (messages st).
Proof.
  intros Hn H. unfold optionsDisabled in H.
  apply orb_false_elim in H. destruct H as [_ H].
  apply negb_false_iff, Z.eqb_eq in H. lia.
Qed.

(** C7.  For an assistant message of the store: if its option buttons
    are enabled, it is the most recent assistant message (indeed the
    last message of the store); and if it is not the most recent
    assistant message, a click on any of its options changes nothing. *)
Theorem options_actionable_only_on_latest (st : State) (index : nat) (m : Message) :
  nth_error (messages st) index = Some m ->
  role m = BOT ->
  (optionsDisabled st index = false ->
     mostRecentAssistant st = Some index /\ S index = List.length (messages st))
  /\ (mostRecentAssistant st <> Some index ->
        forall now geolocation k, clickOption now geolocation index k st = st).
Proof.
  intros Hn Hr.
  assert (Hen : optionsDisabled st index = false ->
                mostRecentAssistant st = Some index).
  { intros H. unfold mostRecentAssistant.
    rewrite (@lastAssistantFrom_last (messages st) 0 index m Hn).
    - reflexivity.
    - apply (enabled_is_last st index Hn H).
    - unfold isAssistant. rewrite Hr. reflexivity. }
  split; [intros H; split; [exact (Hen H) | exact (enabled_is_last st index Hn H)]|].
  intros Hnot now geolocation k. apply clickOption_disabled.
  destruct (optionsDisabled st index); [reflexivity|].
  contradiction Hnot. apply Hen. reflexivity.
Qed.

(** The witness: once the assistant has spoken again, the buttons of
    the earlier question are dead. *)
Lemma options_actionable_witness :
  let st := run initial [ Mount true; Submit 1 (lit "I have a headache") None;
                          ModelDone 2 0 (Normal [Some followUpText]);
                          Submit 3 (lit "Never mind") None;
                          ModelDone 4 0 (Normal [Some (lit "Take care.")]) ] in
  clickOption 5 true 2 1 st = st.
Proof.
  intros st.
  refine (proj2 (@options_actionable_only_on_latest st 2
                  (mkMessage (lit "bot-2") BOT
                     (lit "I hope this initial guidance is helpful. Should I continue to monitor, or would you like me to help you find a nearby medical facility for a professional opinion?")
                     None
                     (Some [JString (lit "I'll follow the advice for now.");
                            JString (lit "Help me find a facility.")])
                     (Some true))
                  ltac:(vm_compute; reflexivity) eq_refl) _ 5%N true 1).
  vm_compute. discriminate.
Defined.

(** *** What holds in every state the application can reach *)

Ltac fields :=
  cbn [messages isLoading isBotTyping chat sends geos revoked
       setMessages setIsLoading setIsBotTyping setChat setSends setGeos
       revokeObjectURL] in *.

Lemma settle_frame now p r st :
  messages (settle now p r st) =
    messages st ++ [match r with
                    | Normal responseText => botResponse now responseText
                    | Throw => errorMessage now
                    end]
  /\ chat (settle now p r st) = chat st
  /\ sends (settle now p r st) = sends st
  /\ geos (settle now p r st) = geos st.
Proof.
  unfold settle. destruct r, (revokeUrl p) as [u|]; try destruct (truthy u);
    repeat split; reflexivity.
Qed.

Lemma Forall_snoc {A : Type} (P : A -> Prop) (l : list A) (x : A) :
  Forall P l -> P x -> Forall P (l ++ [x]).
Proof.
  intros Hl Hx. apply Forall_app. split; [exact Hl | repeat constructor; exact Hx].
Qed.

Lemma Forall_removeNth {A : Type} (P : A -> Prop) (k : nat) (l : list A) :
  Forall P l -> Forall P (removeNth k l).
Proof.
  revert k; induction l as [|x l IH]; intros k H; destruct k; simpl;
    try constructor; inversion H; subst; auto.
Qed.

Lemma Forall_nth_error {A : Type} (P : A -> Prop) (l : list A) (k : nat) (x : A) :
  Forall P l -> nth_error l k = Some x -> P x.
Proof.
  intros H Hn. rewrite Forall_forall in H. apply H.
  exact (nth_error_In l k Hn).
Qed.

Lemma settle_wellFormed now p r st :
  wellFormed st -> (r = Throw \/ chat st = true) ->
  wellFormed (settle now p r st).
Proof.
  intros [Hg Hn] Hr. unfold wellFormed, geosFresh, nothingFromModel.
  destruct (settle_frame now p r st) as (Hm & Hc & Hs & Hgeo).
  rewrite Hm, Hc, Hs, Hgeo. split; [exact Hg|].
  intros Hchat. destruct Hr as [-> | Hr]; [|congruence].
  destruct (Hn Hchat) as (H1 & H2 & H3).
  repeat split; try assumption. apply Forall_snoc; [exact H1 | reflexivity].
Qed.

Lemma callModel_wellFormed now p imagePart st :
  wellFormed st -> wellFormed (callModel now p imagePart st).
Proof.
  intros H. unfold callModel, streamResponse_begin.
  destruct (chat st) eqn:Hc; cbn [negb].
  - destruct (_ ++ _).
    + apply settle_wellFormed; [exact H | right; exact Hc].
    + destruct H as [Hg _]. split; [exact Hg|]. fields. congruence.
  - apply settle_wellFormed; [exact H | left; reflexivity].
Qed.

Lemma handleSendMessage_wellFormed flag now text image isHidden st :
  wellFormed st -> wellFormed (handleSendMessage flag now text image isHidden st).
Proof.
  intros H. unfold handleSendMessage.
  destruct (_ || flag); [exact H|].
  destruct H as [Hg Hn].
  destruct isHidden, image as [f|]; cbn [negb];
    try apply callModel_wellFormed; (split; [exact Hg|]); fields;
    intros Hc; destruct (Hn Hc) as (Ha & Hb & Hd); unfold append;
    repeat split; try assumption;
    apply Forall_snoc; solve [assumption | reflexivity].
Qed.

Lemma isLocationQuestion_question (st : State) :
  isLocationQuestion st = true ->
  exists m, In m (messages st) /\ isBotQuestion m = true.
Proof.
  unfold isLocationQuestion, lastQuestion. intros H.
  destruct (find isBotQuestion (rev (messages st))) as [m|] eqn:E;
    [|discriminate H].
  apply find_some in E. destruct E as [Hin Hq].
  exists m. split; [apply in_rev; exact Hin | exact Hq].
Qed.

Lemma isLocationQuestion_chat (st : State) :
  wellFormed st -> isLocationQuestion st = true -> chat st = true.
Proof.
  intros [_ Hn] H. destruct (chat st) eqn:Hc; [reflexivity|].
  destruct (Hn eq_refl) as (Ha & _).
  destruct (isLocationQuestion_question st H) as (m & Hin & Hq).
  rewrite Forall_forall in Ha. rewrite (Ha m Hin) in Hq. discriminate Hq.
Qed.

Lemma handleOptionClick_wellFormed now geolocation optionText st :
  wellFormed st -> isLoading st = false ->
  wellFormed (handleOptionClick now geolocation optionText st).
Proof.
  intros H Hl. unfold handleOptionClick.
  destruct (_ && isLocationQuestion st) eqn:E;
    [|apply handleSendMessage_wellFormed; exact H].
  apply andb_true_iff in E. destruct E as [_ E].
  unfold handleLocationRequest.
  destruct geolocation; cbn [negb];
    [|apply handleSendMessage_wellFormed; exact H].
  pose proof (isLocationQuestion_chat H E) as Hc.
  destruct H as [Hg _]. split.
  - unfold geosFresh. fields. apply Forall_snoc; [exact Hg | exact Hl].
  - fields. congruence.
Qed.

Lemma clickOption_wellFormed now geolocation index k st :
  wellFormed st -> wellFormed (clickOption now geolocation index k st).
Proof.
  intros H. unfold clickOption.
  destruct (nth_error (messages st) index) as [m|]; [|exact H].
  destruct (role m), (isQuestion m) as [[|]|], (options m) as [os|];
    try exact H;
    (destruct (nth_error os k) as [[| | |optionText| |]|]; [..|exact H];
     destruct (optionsDisabled st index) eqn:E; try exact H;
     apply handleOptionClick_wellFormed; [exact H|];
     unfold optionsDisabled in E; apply orb_false_elim in E; apply E).
Qed.

Lemma initChat_wellFormed ok st : wellFormed st -> wellFormed (initChat ok st).
Proof.
  intros [Hg Hn]. unfold initChat. destruct ok.
  - split; [exact Hg|]. fields. discriminate.
  - split; [exact Hg|]. fields. intros Hc.
    destruct (Hn Hc) as (_ & Hb & Hd).
    repeat split; try assumption. repeat constructor.
Qed.

Lemma dropSend_wellFormed k st :
  wellFormed st -> wellFormed (setSends (removeNth k) st).
Proof.
  intros [Hg Hn]. split; [exact Hg|]. fields. intros Hc.
  destruct (Hn Hc) as (Ha & Hb & Hd).
  repeat split; try assumption. apply Forall_removeNth; exact Hb.
Qed.

Lemma geoCallback_wellFormed now k g r st :
  wellFormed st -> wellFormed (geoCallback now g r (setGeos (removeNth k) st)).
Proof.
  intros [Hg Hn]. unfold geoCallback. apply handleSendMessage_wellFormed.
  split.
  - unfold geosFresh. fields. apply Forall_removeNth; exact Hg.
  - fields. intros Hc. destruct (Hn Hc) as (Ha & Hb & Hd).
    repeat split; try assumption; fields.
    + apply Forall_forall. intros m Hm. apply filter_In in Hm.
      rewrite Forall_forall in Ha. apply Ha, Hm.
    + rewrite Hd. destruct k; reflexivity.
Qed.

Lemma step_wellFormed st e : wellFormed st -> wellFormed (step st e).
Proof.
  intros H. destruct e as [ok|confirmed ok|now text image|now geolocation index k
                          |now k base64|now k stream|now k result]; cbn [step].
  - apply initChat_wellFormed; exact H.
  - destruct confirmed; [apply initChat_wellFormed|]; exact H.
  - unfold handleSend. destruct (_ && _); [|exact H].
    apply handleSendMessage_wellFormed; exact H.
  - apply clickOption_wellFormed; exact H.
  - destruct (nth_error (sends st) k) as [p|]; [|exact H].
    destruct (stage p); [|exact H].
    destruct (sendImage p); [|exact H].
    destruct base64.
    + apply callModel_wellFormed, dropSend_wellFormed, H.
    + apply settle_wellFormed; [apply dropSend_wellFormed, H | left; reflexivity].
  - destruct (nth_error (sends st) k) as [p|] eqn:Hk; [|exact H].
    destruct (stage p) eqn:Hs; [exact H|].
    assert (Hc : chat st = true).
    { destruct (chat st) eqn:Hc; [reflexivity|].
      destruct H as [_ Hn]. destruct (Hn Hc) as (_ & Hb & _).
      pose proof (@Forall_nth_error _ _ _ _ _ Hb Hk) as Hp. cbv beta in Hp.
      congruence. }
    destruct stream;
      (apply settle_wellFormed; [apply dropSend_wellFormed, H | right; exact Hc]).
  - destruct (nth_error (geos st) k) as [g|]; [|exact H].
    apply geoCallback_wellFormed; exact H.
Qed.

Lemma run_wellFormed es : forall st, wellFormed st -> wellFormed (run st es).
Proof.
  induction es as [|e es IH]; intros st H; [exact H|].
  cbn [run fold_left]. apply IH, step_wellFormed, H.
Qed.

Lemma reachable_wellFormed es : wellFormed (run initial es).
Proof.
  apply run_wellFormed. split.
  - constructor.
  - intros _. repeat split; constructor.
Qed.

(** *** Option selection *)

(** handleSendMessage as option selection calls it is the submission of
    the input box with the same text and no image. *)
Lemma handleSendMessage_is_Submit now text st :
  handleSendMessage (isLoading st) now text None false st =
  step st (Submit now text None).
Proof.
  cbn [step]. unfold handleSend, handleSendMessage.
  destruct (truthy (trim text)), (isLoading st); reflexivity.
Qed.

Lemma geos_callModel now p imagePart st :
  geos (callModel now p imagePart st) = geos st.
Proof.
  unfold callModel.
  destruct (streamResponse_begin (chat st) (sendText p) imagePart);
    try apply settle_frame. reflexivity.
Qed.

Lemma geos_handleSendMessage flag now text image isHidden st :
  geos (handleSendMessage flag now text image isHidden st) = geos st.
Proof.
  unfold handleSendMessage. destruct (_ || flag); [reflexivity|].
  destruct isHidden, image; cbn [negb]; try rewrite geos_callModel; reflexivity.
Qed.

Lemma followUpState_isLocationQuestion : isLocationQuestion followUpState = true.
Proof. vm_compute. reflexivity. Qed.

Lemma no_position_request_without_geolocation now optionText st :
  geos (handleOptionClick now false optionText st) = geos st.
Proof.
  unfold handleOptionClick, handleLocationRequest. cbn [negb].
  destruct (_ && _); apply geos_handleSendMessage.
Qed.

(** C8, as stated, fails on both counts, in the state in which the
    follow-up question has just been asked.
    - The option "Help me find a facility." contains the phrase, but
      where the browser has no geolocation selecting it requests no
      position.
    - The option "Help me FIND A FACILITY." does not contain the phrase
      as it stands, so it should be submitted as text, which would
      request no position; selecting it requests one. *)
Lemma option_selection_as_stated_fails :
  (includes (lit "find a facility") (lit "Help me find a facility.") = true
   /\ isLocationQuestion followUpState = true
   /\ geos (handleOptionClick 3 false (lit "Help me find a facility.") followUpState)
      = [])
  /\ (includes (lit "find a facility") (lit "Help me FIND A FACILITY.") = false
      /\ geos (step followUpState (Submit 3 (lit "Help me FIND A FACILITY.") None))
         = []
      /\ geos (handleOptionClick 3 true (lit "Help me FIND A FACILITY.") followUpState)
         = [mkPendingGeo (lit "bot-locating-3") false]).
Proof. vm_compute. repeat split; reflexivity. Qed.

(** C8, amended.  The facility request is recognised by the phrase in
    the lower-cased option text, together with the marker in the text of
    the most recent question of the assistant.
    - If it is recognised and the browser has geolocation, a position
      is requested and no prompt is submitted.
    - If it is recognised and the browser has no geolocation, a fixed
      text saying so is submitted in place of the option text.
    - Otherwise the option text is submitted exactly as the input box
      submits a text.
    - An option text that contains the phrase as it stands is recognised
      by the first condition. *)
Theorem option_selection_routes (now : N) (geolocation : bool)
    (optionText : jsstring) (st : State) :
  let facility :=
    includes (lit "find a facility") (toLowerCase optionText)
    && isLocationQuestion st in
  let st' := handleOptionClick now geolocation optionText st in
  (facility = true -> geolocation = true ->
     geos st' = geos st ++ [mkPendingGeo (lit "bot-locating-" ++ ofNumber now)
                                         (isLoading st)]
     /\ sends st' = sends st)
  /\ (facility = true -> geolocation = false ->
        st' = step st (Submit now unsupportedText None))
  /\ (facility = false -> st' = step st (Submit now optionText None))
  /\ (includes (lit "find a facility") optionText = true ->
        includes (lit "find a facility") (toLowerCase optionText) = true).
Proof.
  intros facility st'. subst facility st'. unfold handleOptionClick.
  split; [|split; [|split]].
  - intros Hf Hg. rewrite Hf, Hg. split; reflexivity.
  - intros Hf Hg. rewrite Hf, Hg. unfold handleLocationRequest. cbn [negb].
    apply handleSendMessage_is_Submit.
  - intros Hf. rewrite Hf. apply handleSendMessage_is_Submit.
  - apply includes_toLowerCase. vm_compute. reflexivity.
Qed.

(** The witness: the facility option as the system instruction spells
    it, selected after the follow-up question. *)
Lemma option_selection_routes_witness :
  geos (handleOptionClick 3 true (lit "Help me find a facility.") followUpState)
  = geos followUpState ++ [mkPendingGeo (lit "bot-locating-" ++ ofNumber 3)
                                        (isLoading followUpState)]
  /\ sends (handleOptionClick 3 true (lit "Help me find a facility.") followUpState)
     = sends followUpState.
Proof.
  apply (proj1 (option_selection_routes 3 true (lit "Help me find a facility.")
                  followUpState)).
  - vm_compute. reflexivity.
  - reflexivity.
Defined.

(** C10.  When the facility request is recognised and the browser has
    geolocation, the store gains the user message with the fixed text,
    whatever the option said, and after it the placeholder; a position
    request is then pending, and no prompt has been submitted. *)
Theorem facility_lookup_appends (now : N) (optionText : jsstring) (st : State) :
  includes (lit "find a facility") (toLowerCase optionText) = true ->
  isLocationQuestion st = true ->
  let st' := handleOptionClick now true optionText st in
  messages st' =
    messages st
    ++ [ mkMessage (lit "user-" ++ ofNumber now) USER
                   (lit "Yes, help me find a facility.") None None None;
         mkMessage (lit "bot-locating-" ++ ofNumber now) BOT
                   (lit "Got it. Finding your location...") None None None ]
  /\ geos st' = geos st ++ [mkPendingGeo (lit "bot-locating-" ++ ofNumber now)
                                         (isLoading st)]
  /\ sends st' = sends st.
Proof.
  intros Hi Hq st'. subst st'. unfold handleOptionClick. rewrite Hi, Hq.
  repeat split.
Qed.

(** The witness: an option that words the request differently. *)
Lemma facility_lookup_appends_witness :
  let st' := handleOptionClick 3 true (lit "Please FIND A FACILITY near me")
                               followUpState in
  messages st' =
    messages followUpState
    ++ [ mkMessage (lit "user-" ++ ofNumber 3) USER
                   (lit "Yes, help me find a facility.") None None None;
         mkMessage (lit "bot-locating-" ++ ofNumber 3) BOT
                   (lit "Got it. Finding your location...") None None None ]
  /\ geos st' = geos followUpState
                ++ [mkPendingGeo (lit "bot-locating-" ++ ofNumber 3)
                                 (isLoading followUpState)]
  /\ sends st' = sends followUpState.
Proof.
  apply (facility_lookup_appends 3 (lit "Please FIND A FACILITY near me")
           followUpState).
  - vm_compute. reflexivity.
  - exact followUpState_isLocationQuestion.
Defined.

(** *** Geolocation failure *)

Lemma errorPrompt_truthy (message : jsstring) :
  truthy (trim (errorPrompt message)) = true.
Proof.
  unfold errorPrompt.
  assert (E : exists rest,
             lit "The user tried to share their location, but an error occurred: "
             = 84%N :: rest) by (eexists; vm_compute; reflexivity).
  destruct E as [rest ->]. rewrite <- app_comm_cons.
  apply trim_truthy. reflexivity.
Qed.

Lemma errorPrompt_includes (message : jsstring) :
  includes message (errorPrompt message) = true.
Proof. unfold errorPrompt. apply includes_app. Qed.

(** A hidden prompt that passes the guard while a chat exists is sent
    to the model and leaves the store alone. *)
Lemma hidden_prompt_is_sent now prompt st :
  truthy (trim prompt) = true -> chat st = true ->
  let st' := handleSendMessage false now prompt None true st in
  messages st' = messages st
  /\ sends st' = sends st ++ [mkPendingSend prompt None None
                                            (AwaitingModel [Text prompt])]
  /\ geos st' = geos st.
Proof.
  intros Ht Hc st'. subst st'.
  unfold handleSendMessage. rewrite Ht. cbn [negb andb orb].
  unfold callModel, streamResponse_begin. fields. rewrite Hc.
  cbn [negb sendText app]. rewrite Ht.
  repeat split.
Qed.

(** C9.  In every state the application can reach, when a pending
    position request fails with an error carrying [message]:
    - the store afterwards is the store before without the messages
      that bear the placeholder's id, and nothing is appended to it;
    - a prompt is sent to the model, as a request now outstanding, and
      the error's message is part of its text;
    - when that request completes, the assistant's turn (or the notice
      of a failure) is appended to the store without the placeholder. *)
Theorem geolocation_failure_sends_hidden_prompt (es : list Event) (now : N)
    (k : nat) (g : PendingGeo) (message : jsstring) :
  let st := run initial es in
  nth_error (geos st) k = Some g ->
  let st' := step st (GeoDone now k (PositionError message)) in
  let kept := filter (fun m => negb (eqb (id m) (locatingId g))) (messages st) in
  messages st' = kept
  /\ Forall (fun m => id m <> locatingId g) (messages st')
  /\ sends st' = sends st ++ [mkPendingSend (errorPrompt message) None None
                                            (AwaitingModel [Text (errorPrompt message)])]
  /\ includes message (errorPrompt message) = true
  /\ (forall now' stream,
        messages (step st' (ModelDone now' (List.length (sends st)) stream)) =
        kept ++ [match stream with
                 | Normal chunks => botResponse now' (streamResponse_end chunks)
                 | Throw => errorMessage now'
                 end]).
Proof.
  intros st Hk st' kept.
  pose proof (reachable_wellFormed es) as [Hg Hn]. fold st in Hg, Hn.
  assert (Hcap : capturedIsLoading g = false)
    by exact (@Forall_nth_error _ _ _ _ _ Hg Hk).
  assert (Hc : chat st = true).
  { destruct (chat st) eqn:Hc; [reflexivity|].
    destruct (Hn eq_refl) as (_ & _ & Hd). rewrite Hd in Hk.
    destruct k; discriminate Hk. }
  assert (Hst' : st' = handleSendMessage false now (errorPrompt message) None true
                         (setMessages (filter (fun m => negb (eqb (id m) (locatingId g))))
                                      (setGeos (removeNth k) st))).
  { subst st'. cbn [step]. rewrite Hk. unfold geoCallback. rewrite Hcap.
    reflexivity. }
  destruct (@hidden_prompt_is_sent now (errorPrompt message)
              (setMessages (filter (fun m => negb (eqb (id m) (locatingId g))))
                           (setGeos (removeNth k) st))
              (errorPrompt_truthy message) Hc) as (Hm & Hs & _).
  rewrite <- Hst' in Hm, Hs. fields. fold kept in Hm.
  split; [exact Hm|]. split; [|split; [exact Hs|split; [apply errorPrompt_includes|]]].
  - rewrite Hm. apply Forall_forall. intros m Hin. apply filter_In in Hin.
    destruct Hin as [_ Hin]. apply negb_true_iff in Hin.
    intros Heq. apply eqb_spec in Heq. congruence.
  - intros now' stream. cbn [step]. rewrite Hs.
    rewrite nth_error_app2 by apply Nat.le_refl.
    rewrite Nat.sub_diag. cbn [nth_error stage].
    destruct stream as [chunks|];
      match goal with
      | |- messages (settle ?n ?p ?r ?s) = _ =>
          destruct (settle_frame n p r s) as (E & _)
      end; rewrite E; fields; rewrite Hm; reflexivity.
Qed.

(** The witness: the position request of the follow-up conversation is
    refused. *)
Lemma geolocation_failure_witness :
  let st := run initial [ Mount true; Submit 1 (lit "I have a headache") None;
                          ModelDone 2 0 (Normal [Some followUpText]);
                          Click 3 true 2 1 ] in
  let st' := step st (GeoDone 4 0 (PositionError (lit "User denied Geolocation"))) in
  messages st' =
    filter (fun m => negb (eqb (id m) (lit "bot-locating-3"))) (messages st)
  /\ Forall (fun m => id m <> lit "bot-locating-3") (messages st')
  /\ sends st' =
       sends st ++ [mkPendingSend (errorPrompt (lit "User denied Geolocation")) None None
                      (AwaitingModel [Text (errorPrompt (lit "User denied Geolocation"))])]
  /\ includes (lit "User denied Geolocation")
               (errorPrompt (lit "User denied Geolocation")) = true.
Proof.
  intros st st'.
  destruct (@geolocation_failure_sends_hidden_prompt
              [ Mount true; Submit 1 (lit "I have a headache") None;
                ModelDone 2 0 (Normal [Some followUpText]); Click 3 true 2 1 ]
              4 0 (mkPendingGeo (lit "bot-locating-3") false)
              (lit "User denied Geolocation")
              ltac:(vm_compute; reflexivity)) as (H1 & H2 & H3 & H4 & _).
  repeat split; assumption.
Defined.

End AppFacts.

(* ================================================================== *)
(** ** Further properties: the model service *)
(* ================================================================== *)

Module ServiceFacts.
Import JS JSON Types GeminiService App Statements JSFacts AppFacts.
Import ControllerNotions.

Lemma fold_chunks chunks : forall acc,
  fold_left (fun acc chunkText =>
               match chunkText with
               | Some t => if truthy t then acc ++ t else acc
               | None => acc
               end) chunks acc
  = acc ++ joinChunks chunks.
Proof.
  induction chunks as [|[t|] chunks IH]; intros acc; simpl.
  - rewrite app_nil_r. reflexivity.
  - rewrite IH. unfold joinChunks. simpl. destruct t as [|c t]; simpl.
    + reflexivity.
    + rewrite <- app_assoc. reflexivity.
  - apply IH.
Qed.

Lemma streamResponse_end_joins chunks :
  streamResponse_end chunks =
  if truthy (trim (joinChunks chunks)) then joinChunks chunks else apology.
Proof.
  unfold streamResponse_end. rewrite fold_chunks. simpl app.
  destruct (truthy (trim (joinChunks chunks))); reflexivity.
Qed.

Lemma apology_truthy : truthy (trim apology) = true.
Proof. vm_compute. reflexivity. Qed.

Lemma streamResponse_end_truthy chunks :
  truthy (trim (streamResponse_end chunks)) = true.
Proof.
  rewrite streamResponse_end_joins.
  destruct (truthy (trim (joinChunks chunks))) eqn:E; [exact E | exact apology_truthy].
Qed.

(** X1.  Once the stream has ended, streamResponse returns the texts of
    the chunks joined in the order of arrival, a chunk without text
    counting as empty, or the apology when that is blank; either way the
    text it returns is not blank. *)
Theorem streamResponse_end_result chunks :
  streamResponse_end chunks =
    (if truthy (trim (joinChunks chunks)) then joinChunks chunks else apology)
  /\ truthy (trim (streamResponse_end chunks)) = true.
Proof.
  split; [apply streamResponse_end_joins | apply streamResponse_end_truthy].
Qed.

End ServiceFacts.

(* ================================================================== *)
(** ** Further properties: what App.tsx extracts from strings *)
(* ================================================================== *)

Module ExtractionFacts.
Import JS JSON Types GeminiService App Statements JSFacts AppFacts.
Import DataUrl.

Lemma indexOf_from_char (c : N) (before rest : jsstring) :
  ~ In c before ->
  forall i, indexOf_from [c] (before ++ c :: rest) i = (i + len before)%Z.
Proof.
  unfold len. induction before as [|x before IH]; intros Hn i.
  - simpl. rewrite N.eqb_refl. simpl. lia.
  - simpl app. cbn [indexOf_from startsWith].
    destruct (N.eqb_spec c x) as [->|Hx]; [contradiction Hn; left; reflexivity|].
    cbn [andb]. rewrite IH; [|intros H; apply Hn; right; exact H].
    change (List.length (x :: before)) with (S (List.length before)).
    rewrite Nat2Z.inj_succ. unfold Z.succ. ring.
Qed.

Lemma lastIndexOf_from_absent (c : N) (s : jsstring) :
  ~ In c s -> forall i, lastIndexOf_from [c] s i = (-1)%Z.
Proof.
  induction s as [|x s IH]; intros Hn i; [reflexivity|].
  cbn [lastIndexOf_from startsWith].
  rewrite IH; [|intros H; apply Hn; right; exact H].
  destruct (N.eqb_spec c x) as [->|Hx]; [contradiction Hn; left; reflexivity|].
  reflexivity.
Qed.

Lemma lastIndexOf_from_char (c : N) (pre after : jsstring) :
  ~ In c after ->
  forall i, (0 <= i)%Z ->
    lastIndexOf_from [c] (pre ++ c :: after) i = (i + len pre)%Z.
Proof.
  unfold len. intros Hn. induction pre as [|x pre IH]; intros i Hi.
  - simpl app. cbn [lastIndexOf_from startsWith].
    rewrite (@lastIndexOf_from_absent c after Hn). simpl. rewrite N.eqb_refl. simpl. lia.
  - simpl app. cbn [lastIndexOf_from].
    rewrite IH by lia.
    change (List.length (x :: pre)) with (S (List.length pre)).
    rewrite Nat2Z.inj_succ.
    destruct (Z.eqb_spec (i + 1 + Z.of_nat (List.length pre)) (-1));
      [exfalso; clear - e Hi; lia | unfold Z.succ; ring].
Qed.

Lemma clamp_in_range (s : jsstring) (i : Z) :
  (0 <= i <= len s)%Z -> clamp s i = i.
Proof. unfold clamp. lia. Qed.

Lemma substring_middle (a b c : jsstring) :
  substring (a ++ b ++ c) (len a) (len a + len b) = b.
Proof.
  assert (Hl : len (a ++ b ++ c) = (len a + len b + len c)%Z).
  { unfold len. rewrite !length_app. lia. }
  assert (Ha : (0 <= len a)%Z) by (unfold len; lia).
  assert (Hb : (0 <= len b)%Z) by (unfold len; lia).
  assert (Hc : (0 <= len c)%Z) by (unfold len; lia).
  unfold substring. rewrite !clamp_in_range by lia.
  rewrite Z.min_l, Z.max_r by lia.
  replace (len a + len b - len a)%Z with (len b) by lia.
  unfold len. rewrite !Nat2Z.id.
  rewrite skipn_app, skipn_all, Nat.sub_diag. simpl.
  rewrite firstn_app, firstn_all, Nat.sub_diag. simpl. apply app_nil_r.
Qed.

Lemma substring_whole (s : jsstring) : substring s 0 (len s) = s.
Proof.
  pose proof (substring_middle [] s []) as H.
  rewrite app_nil_r in H. exact H.
Qed.

(** X2.  cleanAndParseJson reads the text from the first opening brace
    to the last closing brace: prose before the object that has no
    opening brace, and prose after it that has no closing brace, do not
    change the result. *)
Theorem cleanAndParseJson_ignores_prose (before mid after : jsstring) :
  ~ In 123%N before -> ~ In 125%N after ->
  cleanAndParseJson (before ++ (123%N :: mid ++ [125%N]) ++ after)
  = cleanAndParseJson (123%N :: mid ++ [125%N]).
Proof.
  intros Hb Ha.
  set (obj := 123%N :: mid ++ [125%N]).
  assert (Hi : indexOf (lit "{") (before ++ obj ++ after) = len before).
  { unfold indexOf. change (lit "{") with [123%N]. subst obj.
    rewrite <- app_comm_cons. rewrite (@indexOf_from_char 123 before _ Hb). lia. }
  assert (Hj : lastIndexOf (lit "}") (before ++ obj ++ after)
               = (len before + len obj - 1)%Z).
  { unfold lastIndexOf. change (lit "}") with [125%N]. subst obj.
    replace (before ++ (123%N :: mid ++ [125%N]) ++ after)
      with ((before ++ 123%N :: mid) ++ 125%N :: after)
      by (rewrite <- !app_assoc; simpl; rewrite <- app_assoc; reflexivity).
    rewrite (@lastIndexOf_from_char 125 _ after Ha) by lia.
    unfold len. rewrite !length_app. cbn [List.length]. rewrite length_app. cbn [List.length]. lia. }
  assert (Hi0 : indexOf (lit "{") obj = 0%Z).
  { unfold indexOf. change (lit "{") with [123%N]. subst obj.
    rewrite (@indexOf_from_char 123 [] (mid ++ [125%N])); [reflexivity | intros []]. }
  assert (Hj0 : lastIndexOf (lit "}") obj = (len obj - 1)%Z).
  { unfold lastIndexOf. change (lit "}") with [125%N]. subst obj.
    change (123%N :: mid ++ [125%N]) with ((123%N :: mid) ++ 125%N :: []).
    rewrite (@lastIndexOf_from_char 125 (123%N :: mid) []) by (try lia; intros []).
    unfold len. rewrite length_app. cbn [List.length]. lia. }
  assert (Hlen : (1 <= len obj)%Z) by (unfold len; subst obj; cbn [List.length]; lia).
  assert (Hlb : (0 <= len before)%Z) by (unfold len; lia).
  unfold cleanAndParseJson. rewrite Hi, Hj, Hi0, Hj0. cbv zeta.
  replace (len before + len obj - 1 + 1)%Z with (len before + len obj)%Z by lia.
  replace (len obj - 1 + 1)%Z with (len obj) by lia.
  rewrite substring_middle, substring_whole.
  destruct (Z.eqb_spec (len before) (-1)); [lia|].
  destruct (Z.eqb_spec (len before + len obj - 1) (-1)); [lia|].
  destruct (Z.ltb_spec (len before + len obj - 1) (len before)); [lia|].
  destruct (Z.eqb_spec 0 (-1)); [lia|].
  destruct (Z.eqb_spec (len obj - 1) (-1)); [lia|].
  destruct (Z.ltb_spec (len obj - 1) 0); [lia|].
  reflexivity.
Qed.

(** The witness: a payload between a preamble and a closing remark. *)
Lemma cleanAndParseJson_ignores_prose_witness :
  cleanAndParseJson
    (lit "Sure! "
     ++ (123%N :: litq "`question`:`How long?`,`options`:[`1 day`]" ++ [125%N])
     ++ lit " Hope that helps.")
  = cleanAndParseJson
      (123%N :: litq "`question`:`How long?`,`options`:[`1 day`]" ++ [125%N]).
Proof.
  apply cleanAndParseJson_ignores_prose;
    vm_compute; intros H; repeat (destruct H as [H|H]; [discriminate H|]); exact H.
Defined.

Lemma splitOn_absent (sep : N) (s : jsstring) :
  ~ In sep s -> splitOn sep s = [s].
Proof.
  induction s as [|c t IH]; intros H; [reflexivity|]. cbn [splitOn].
  assert (Hc : N.eqb c sep = false).
  { apply N.eqb_neq. intros ->. apply H. left. reflexivity. }
  rewrite Hc, IH; [reflexivity|]. intros Hin. apply H. right. exact Hin.
Qed.

Lemma splitOn_first (sep : N) (a b : jsstring) :
  ~ In sep a -> splitOn sep (a ++ sep :: b) = a :: splitOn sep b.
Proof.
  induction a as [|c t IH]; intros H; cbn [app splitOn].
  - rewrite N.eqb_refl. reflexivity.
  - assert (Hc : N.eqb c sep = false).
    { apply N.eqb_neq. intros ->. apply H. left. reflexivity. }
    rewrite Hc, IH; [reflexivity|]. intros Hin. apply H. right. exact Hin.
Qed.

(** X3.  For a data URL whose header and payload hold no comma, the
    promise of fileToBase64 resolves with the payload after the comma;
    for a result without any comma it resolves with [undefined]. *)
Theorem fileToBase64_payload (header payload : jsstring) :
  ~ In 44%N header -> ~ In 44%N payload ->
  fileToBase64_onload (header ++ 44%N :: payload) = Some payload
  /\ fileToBase64_onload header = None.
Proof.
  intros Hh Hp. unfold fileToBase64_onload. split.
  - rewrite (@splitOn_first 44%N header payload Hh), (@splitOn_absent 44%N payload Hp).
    reflexivity.
  - rewrite (@splitOn_absent 44%N header Hh). reflexivity.
Qed.

(** The witness: a data URL as readAsDataURL produces it, and its header
    alone. *)
Lemma fileToBase64_payload_witness :
  fileToBase64_onload (lit "data:image/png;base64,iVBORw0KGgo=") = Some (lit "iVBORw0KGgo=")
  /\ fileToBase64_onload (lit "data:image/png;base64") = None.
Proof.
  apply (@fileToBase64_payload (lit "data:image/png;base64") (lit "iVBORw0KGgo="));
    vm_compute; intros H; repeat (destruct H as [H|H]; [discriminate H|]); exact H.
Defined.

End ExtractionFacts.

(* ================================================================== *)
(** ** Further properties: the controller of App.tsx *)
(* ================================================================== *)

Module ControllerFacts.
Import JS JSON Types GeminiService App Statements JSFacts AppFacts.
Import ControllerNotions ServiceFacts.

Ltac proj :=
  cbn [messages isLoading isBotTyping chat sends geos revoked
       setMessages setIsLoading setIsBotTyping setChat setSends setGeos
       revokeObjectURL] in *.

Lemma snoc_not_nil {A : Type} (l : list A) (x : A) : l ++ [x] <> [].
Proof. destruct l; discriminate. Qed.

Lemma run_preserves (I : State -> Prop) :
  (forall st e, I st -> I (step st e)) ->
  forall es st, I st -> I (run st es).
Proof.
  intros Hstep es. induction es as [|e es IH]; intros st H; [exact H|].
  cbn [run fold_left]. apply IH, Hstep, H.
Qed.

Lemma removeNth_last {A : Type} (l : list A) (x : A) :
  removeNth (List.length l) (l ++ [x]) = l.
Proof. induction l as [|y l IH]; simpl; [reflexivity | rewrite IH; reflexivity]. Qed.

Lemma nth_error_last {A : Type} (l : list A) (x : A) :
  nth_error (l ++ [x]) (List.length l) = Some x.
Proof.
  rewrite nth_error_app2 by apply Nat.le_refl. rewrite Nat.sub_diag. reflexivity.
Qed.

Lemma callModel_flagBacked now p imagePart st :
  (isLoading st = true -> isBotTyping st = true) ->
  flagBacked (callModel now p imagePart st).
Proof.
  intros H. unfold callModel, flagBacked.
  destruct (streamResponse_begin (chat st) (sendText p) imagePart);
    try (rewrite isLoading_settle; discriminate).
  proj. intros Hl. split; [apply snoc_not_nil | exact (H Hl)].
Qed.

Lemma handleSendMessage_flagBacked flag now text image isHidden st :
  flagBacked st -> flagBacked (handleSendMessage flag now text image isHidden st).
Proof.
  intros H. unfold handleSendMessage. destruct (_ || flag); [exact H|].
  destruct isHidden, image as [f|]; cbn [negb];
    try (apply callModel_flagBacked; proj; reflexivity);
    unfold flagBacked; proj; intros _; (split; [apply snoc_not_nil | reflexivity]).
Qed.

Lemma handleOptionClick_flagBacked now geolocation optionText st :
  flagBacked st -> flagBacked (handleOptionClick now geolocation optionText st).
Proof.
  intros H. unfold handleOptionClick, handleLocationRequest.
  destruct (_ && _); [destruct geolocation; cbn [negb]|];
    try (apply handleSendMessage_flagBacked; exact H).
  exact H.
Qed.

Lemma clickOption_flagBacked now geolocation index k st :
  flagBacked st -> flagBacked (clickOption now geolocation index k st).
Proof.
  intros H. unfold clickOption.
  destruct (nth_error (messages st) index) as [m|]; [|exact H].
  destruct (role m), (isQuestion m) as [[|]|], (options m) as [os|];
    try exact H;
    (destruct (nth_error os k) as [[| | |optionText| |]|]; [..|exact H];
     destruct (optionsDisabled st index); try exact H;
     apply handleOptionClick_flagBacked; exact H).
Qed.

Lemma step_flagBacked st e : flagBacked st -> flagBacked (step st e).
Proof.
  intros H. destruct e as [ok|confirmed ok|now text image|now geolocation index k
                          |now k base64|now k stream|now k result]; cbn [step].
  - unfold initChat, flagBacked. destruct ok; proj; discriminate.
  - destruct confirmed; [|exact H].
    unfold initChat, flagBacked. destruct ok; proj; discriminate.
  - unfold handleSend. destruct (_ && _); [|exact H].
    apply handleSendMessage_flagBacked; exact H.
  - apply clickOption_flagBacked; exact H.
  - destruct (nth_error (sends st) k) as [p|]; [|exact H].
    destruct (stage p); [|exact H].
    destruct (sendImage p); [|exact H].
    destruct base64.
    + apply callModel_flagBacked. proj. intros Hl. apply H, Hl.
    + unfold flagBacked. rewrite isLoading_settle. discriminate.
  - destruct (nth_error (sends st) k) as [p|]; [|exact H].
    destruct (stage p); [exact H|].
    unfold flagBacked. destruct stream; rewrite isLoading_settle; discriminate.
  - destruct (nth_error (geos st) k) as [g|]; [|exact H].
    unfold geoCallback. apply handleSendMessage_flagBacked. exact H.
Qed.

(** X4.  In every state the page can reach, a set busy flag means that
    some call of handleSendMessage has not finished, and the typing
    indicator is on: the flag is never left set with nothing to clear
    it. *)
Theorem busy_flag_is_backed (es : list Event) :
  let st := run initial es in
  isLoading st = true -> sends st <> [] /\ isBotTyping st = true.
Proof.
  apply (run_preserves flagBacked step_flagBacked). intros H. discriminate H.
Qed.

(** The witness: a submission that has not been answered yet. *)
Lemma busy_flag_is_backed_witness :
  let st := run initial [Mount true; Submit 1 (lit "Hi") None] in
  sends st <> [] /\ isBotTyping st = true.
Proof.
  intros st.
  apply (busy_flag_is_backed [Mount true; Submit 1 (lit "Hi") None]).
  vm_compute. reflexivity.
Defined.

Lemma callModel_requests now p imagePart st :
  (imagePart = None -> truthy (trim (sendText p)) = true) ->
  Forall requestWellFormed (sends st) ->
  Forall requestWellFormed (sends (callModel now p imagePart st)).
Proof.
  intros Hp H. unfold callModel, streamResponse_begin.
  destruct (chat st); cbn [negb];
    [|destruct (settle_frame now p Throw st) as (_ & _ & -> & _); exact H].
  destruct imagePart as [i|].
  - cbn [app]. proj. apply Forall_snoc; [exact H|].
    unfold requestWellFormed. cbn [stage sendText]. right.
    exists (mimeType i), (data i). reflexivity.
  - rewrite (Hp eq_refl). cbn [app]. proj. apply Forall_snoc; [exact H|].
    unfold requestWellFormed. cbn [stage sendText]. left.
    split; [reflexivity | exact (Hp eq_refl)].
Qed.

Lemma handleSendMessage_requests flag now text image isHidden st :
  Forall requestWellFormed (sends st) ->
  Forall requestWellFormed (sends (handleSendMessage flag now text image isHidden st)).
Proof.
  intros H. unfold handleSendMessage.
  destruct (truthy (trim text)) eqn:Et; destruct image as [f|]; cbn [negb andb orb];
    destruct flag; try exact H;
    destruct isHidden; cbn [negb];
    try (apply callModel_requests; [intros _; exact Et | proj; exact H]);
    proj; unfold append; apply Forall_snoc; try exact H; discriminate.
Qed.

Lemma clickOption_requests now geolocation index k st :
  Forall requestWellFormed (sends st) ->
  Forall requestWellFormed (sends (clickOption now geolocation index k st)).
Proof.
  intros H. unfold clickOption.
  destruct (nth_error (messages st) index) as [m|]; [|exact H].
  destruct (role m), (isQuestion m) as [[|]|], (options m) as [os|];
    try exact H;
    (destruct (nth_error os k) as [[| | |optionText| |]|]; [..|exact H];
     destruct (optionsDisabled st index); try exact H;
     unfold handleOptionClick, handleLocationRequest;
     destruct (_ && _); [destruct geolocation; cbn [negb]|];
     try (apply handleSendMessage_requests; exact H); exact H).
Qed.

Lemma step_requests st e :
  Forall requestWellFormed (sends st) ->
  Forall requestWellFormed (sends (step st e)).
Proof.
  intros H. destruct e as [ok|confirmed ok|now text image|now geolocation index k
                          |now k base64|now k stream|now k result]; cbn [step].
  - unfold initChat. destruct ok; exact H.
  - destruct confirmed; [|exact H]. unfold initChat. destruct ok; exact H.
  - unfold handleSend. destruct (_ && _); [|exact H].
    apply handleSendMessage_requests; exact H.
  - apply clickOption_requests; exact H.
  - destruct (nth_error (sends st) k) as [p|]; [|exact H].
    destruct (stage p); [|exact H].
    destruct (sendImage p); [|exact H].
    destruct base64.
    + apply callModel_requests; [discriminate|]. proj.
      apply Forall_removeNth; exact H.
    + match goal with
      | |- context [settle ?n ?q ?r ?s] =>
          destruct (settle_frame n q r s) as (_ & _ & -> & _)
      end. proj. apply Forall_removeNth; exact H.
  - destruct (nth_error (sends st) k) as [p|]; [|exact H].
    destruct (stage p); [exact H|].
    destruct stream;
      match goal with
      | |- context [settle ?n ?q ?r ?s] =>
          destruct (settle_frame n q r s) as (_ & _ & -> & _)
      end; proj; apply Forall_removeNth; exact H.
  - destruct (nth_error (geos st) k) as [g|]; [|exact H].
    unfold geoCallback. apply handleSendMessage_requests. exact H.
Qed.

(** X5.  In every reachable state each pending call is well formed: one
    that waits for its image has an image, and what was sent to the model
    is never empty: the non-blank text alone, or the image followed by
    the text when the text is not blank. *)
Theorem requests_are_well_formed (es : list Event) :
  Forall requestWellFormed (sends (run initial es)).
Proof.
  apply (run_preserves (fun st => Forall requestWellFormed (sends st)) step_requests).
  constructor.
Qed.

Lemma extends_refl bound l : extends bound l l.
Proof. exists []. rewrite app_nil_r. split; [reflexivity | simpl; lia]. Qed.

Lemma extends_trans a b l1 l2 l3 :
  extends a l1 l2 -> extends b l2 l3 -> extends (a + b) l1 l3.
Proof.
  intros (x & -> & Hx) (y & -> & Hy). exists (x ++ y).
  rewrite app_assoc, length_app. split; [reflexivity | lia].
Qed.

Lemma extends_weaken a b l1 l2 : a <= b -> extends a l1 l2 -> extends b l1 l2.
Proof. intros Hab (x & -> & Hx). exists x. split; [reflexivity | lia]. Qed.

Lemma extends_snoc l m : extends 1 l (l ++ [m]).
Proof. exists [m]. split; [reflexivity | simpl; lia]. Qed.

Lemma settle_extends now p r st : extends 1 (messages st) (messages (settle now p r st)).
Proof.
  destruct (settle_frame now p r st) as (-> & _). apply extends_snoc.
Qed.

Lemma callModel_extends now p imagePart st :
  extends 1 (messages st) (messages (callModel now p imagePart st)).
Proof.
  unfold callModel.
  destruct (streamResponse_begin (chat st) (sendText p) imagePart);
    try apply settle_extends. apply extends_refl.
Qed.

Lemma handleSendMessage_extends flag now text image (isHidden : bool) st :
  extends (if isHidden then 1 else 2) (messages st)
          (messages (handleSendMessage flag now text image isHidden st)).
Proof.
  unfold handleSendMessage. destruct (_ || flag); [apply extends_refl|].
  destruct isHidden, image as [f|]; cbn [negb].
  - proj. apply extends_refl.
  - match goal with
    | |- extends _ _ (messages (callModel ?n ?p ?i ?s)) =>
        exact (callModel_extends n p i s)
    end.
  - proj. apply (@extends_weaken 1); [lia | apply extends_snoc].
  - match goal with
    | |- extends _ _ (messages (callModel ?n ?p ?i ?s)) =>
        apply (@extends_trans 1 1 _ (messages s));
          [proj; apply extends_snoc | apply callModel_extends]
    end.
Qed.

Lemma handleOptionClick_extends now geolocation optionText st :
  extends 2 (messages st) (messages (handleOptionClick now geolocation optionText st)).
Proof.
  unfold handleOptionClick, handleLocationRequest.
  destruct (_ && _); [destruct geolocation; cbn [negb]|];
    try apply (handleSendMessage_extends (isLoading st) now _ None false st).
  proj. eexists. split; [reflexivity | simpl; lia].
Qed.

Lemma clickOption_extends now geolocation index k st :
  extends 2 (messages st) (messages (clickOption now geolocation index k st)).
Proof.
  unfold clickOption.
  destruct (nth_error (messages st) index) as [m|]; [|apply extends_refl].
  destruct (role m), (isQuestion m) as [[|]|], (options m) as [os|];
    try apply extends_refl;
    (destruct (nth_error os k) as [[| | |optionText| |]|]; [..|apply extends_refl];
     destruct (optionsDisabled st index); try apply extends_refl;
     apply handleOptionClick_extends).
Qed.

(** X6.  How each event changes the message store.  Mounting and a
    confirmed New chat leave exactly one message.  A submission or a
    click appends at most two messages and the end of an image read or of
    a model call at most one, and none of them alters or drops a message
    already shown.  A geolocation callback drops the messages with the
    placeholder's id and appends at most one message; one for a request
    that is not pending changes nothing. *)
Theorem store_changes (st : State) :
  (forall ok, List.length (messages (step st (Mount ok))) = 1)
  /\ (forall ok, List.length (messages (step st (NewChat true ok))) = 1)
  /\ (forall now text image,
        extends 2 (messages st) (messages (step st (Submit now text image))))
  /\ (forall now geolocation index k,
        extends 2 (messages st) (messages (step st (Click now geolocation index k))))
  /\ (forall now k base64,
        extends 1 (messages st) (messages (step st (ImageRead now k base64))))
  /\ (forall now k stream,
        extends 1 (messages st) (messages (step st (ModelDone now k stream))))
  /\ (forall now k result,
        match nth_error (geos st) k with
        | Some g =>
            extends 1 (filter (fun m => negb (eqb (id m) (locatingId g))) (messages st))
                      (messages (step st (GeoDone now k result)))
        | None => step st (GeoDone now k result) = st
        end).
Proof.
  repeat split.
  - intros ok. cbn [step]. unfold initChat. destruct ok; reflexivity.
  - intros ok. cbn [step]. unfold initChat. destruct ok; reflexivity.
  - intros now text image. cbn [step]. unfold handleSend.
    destruct (_ && _); [|apply extends_refl].
    apply (handleSendMessage_extends (isLoading st) now text image false st).
  - intros. apply clickOption_extends.
  - intros now k base64. cbn [step].
    destruct (nth_error (sends st) k) as [p|]; [|apply extends_refl].
    destruct (stage p); [|apply extends_refl].
    destruct (sendImage p); [|apply extends_refl].
    destruct base64.
    + match goal with
      | |- extends _ _ (messages (callModel ?n ?q ?i ?s)) =>
          exact (callModel_extends n q i s)
      end.
    + match goal with
      | |- extends _ _ (messages (settle ?n ?q ?r ?s)) =>
          exact (settle_extends n q r s)
      end.
  - intros now k stream. cbn [step].
    destruct (nth_error (sends st) k) as [p|]; [|apply extends_refl].
    destruct (stage p); [apply extends_refl|].
    destruct stream;
      match goal with
      | |- extends _ _ (messages (settle ?n ?q ?r ?s)) =>
          exact (settle_extends n q r s)
      end.
  - intros now k result. cbn [step].
    destruct (nth_error (geos st) k) as [g|]; [|reflexivity]. unfold geoCallback.
    match goal with
    | |- extends _ _ (messages (handleSendMessage ?f ?n ?t None true ?s)) =>
        exact (handleSendMessage_extends f n t None true s)
    end.
Qed.

(** X7.  One full exchange.  From an idle state with a chat session, a
    non-blank text without image sets the busy flag and puts one more
    request in flight; when its stream ends or fails, the store has
    gained the user message and then the reply or the error notice, both
    flags are cleared, and the pending calls are what they were. *)
Theorem submit_then_reply (st : State) (now now' : N) (text : jsstring)
    (stream : completion (list (option jsstring))) :
  isLoading st = false -> chat st = true -> truthy (trim text) = true ->
  let st1 := step st (Submit now text None) in
  let st2 := step st1 (ModelDone now' (List.length (sends st)) stream) in
  (isLoading st1 = true /\ inFlight st1 = S (inFlight st))
  /\ messages st2 =
       messages st
       ++ [ mkMessage (lit "user-" ++ ofNumber now) USER text None None None;
            match stream with
            | Normal chunks => botResponse now' (streamResponse_end chunks)
            | Throw => errorMessage now'
            end ]
  /\ isLoading st2 = false /\ isBotTyping st2 = false
  /\ sends st2 = sends st /\ geos st2 = geos st.
Proof.
  intros Hl Hc Ht st1 st2.
  assert (E1 : st1 = setSends (append (mkPendingSend text None None
                                         (AwaitingModel [Text text])))
                       (setIsBotTyping true
                          (setMessages (append (mkMessage (lit "user-" ++ ofNumber now)
                                                  USER text None None None))
                             (setIsLoading true st)))).
  { subst st1. cbn [step]. unfold handleSend, handleSendMessage.
    rewrite Hl, Ht. cbn [negb andb orb option_map imageUrl].
    unfold callModel, streamResponse_begin. proj. rewrite Hc.
    cbn [negb sendText app sendImage revokeUrl]. rewrite Ht. reflexivity. }
  assert (E2 : st2 = settle now'
                       (mkPendingSend text None None (AwaitingModel [Text text]))
                       (match stream with
                        | Normal chunks => Normal (streamResponse_end chunks)
                        | Throw => Throw
                        end)
                       (setSends (removeNth (List.length (sends st))) st1)).
  { subst st2. cbn [step]. rewrite E1 at 1. proj. unfold append at 1.
    rewrite nth_error_last. cbn [stage]. destruct stream; reflexivity. }
  split.
  - rewrite E1. proj. split; [reflexivity|].
    unfold inFlight. proj. unfold append. rewrite filter_app, length_app.
    simpl. lia.
  - rewrite E2.
    match goal with
    | |- context [settle ?n ?q ?r ?s] =>
        destruct (settle_frame n q r s) as (Hm & _ & Hs & Hg);
        pose proof (isLoading_settle n q r s) as Hload
    end.
    rewrite Hm, Hs, Hg, Hload. rewrite E1. proj. unfold append.
    rewrite removeNth_last, <- app_assoc.
    repeat split. destruct stream; reflexivity.
Qed.

(** The witness: the first exchange of a conversation. *)
Lemma submit_then_reply_witness :
  let st := run initial [Mount true] in
  let st1 := step st (Submit 1 (lit "Hi") None) in
  let st2 := step st1 (ModelDone 2 0 (Normal [Some (lit "Hello")])) in
  isLoading st1 = true
  /\ messages st2 =
       messages st
       ++ [ mkMessage (lit "user-" ++ ofNumber 1) USER (lit "Hi") None None None;
            botResponse 2 (streamResponse_end [Some (lit "Hello")]) ]
  /\ isLoading st2 = false.
Proof.
  intros st st1 st2.
  destruct (@submit_then_reply (run initial [Mount true]) 1 2 (lit "Hi")
              (Normal [Some (lit "Hello")])
              ltac:(vm_compute; reflexivity) ltac:(vm_compute; reflexivity)
              ltac:(vm_compute; reflexivity))
    as ((H1 & _) & H2 & H3 & _).
  repeat split; assumption.
Defined.

(** X8.  The object URL made for an attached image is shown in the user
    message and revoked exactly when the call finishes, however it
    finishes: when reading the file fails, when there is no chat
    session, and when the model call ends or fails.  The user message
    that carries the URL stays in the store after the URL is revoked. *)
Theorem image_url_is_revoked (st : State) (now : N) (text : jsstring) (f : File) :
  isLoading st = false -> truthy (objectUrl f) = true ->
  let k := List.length (sends st) in
  let userMessage := mkMessage (lit "user-" ++ ofNumber now) USER text
                               (Some (objectUrl f)) None None in
  let st1 := step st (Submit now text (Some f)) in
  (messages st1 = messages st ++ [userMessage]
   /\ sends st1 = sends st ++ [mkPendingSend text (Some f) (Some (objectUrl f))
                                             ReadingImage]
   /\ revoked st1 = revoked st)
  /\ (forall now',
        let st2 := step st1 (ImageRead now' k Throw) in
        revoked st2 = objectUrl f :: revoked st
        /\ messages st2 = messages st ++ [userMessage; errorMessage now'])
  /\ (forall now' base64Data,
        chat st = false ->
        revoked (step st1 (ImageRead now' k (Normal base64Data)))
        = objectUrl f :: revoked st)
  /\ (forall now' now'' base64Data stream,
        chat st = true ->
        let st2 := step st1 (ImageRead now' k (Normal base64Data)) in
        let st3 := step st2 (ModelDone now'' k stream) in
        sends st2 =
          sends st ++ [mkPendingSend text (Some f) (Some (objectUrl f))
                         (AwaitingModel
                            (InlineData (fileType f) base64Data
                             :: (if truthy (trim text) then [Text text] else [])))]
        /\ revoked st2 = revoked st
        /\ revoked st3 = objectUrl f :: revoked st
        /\ In userMessage (messages st3)).
Proof.
  intros Hl Hu k userMessage st1.
  set (p := mkPendingSend text (Some f) (Some (objectUrl f)) ReadingImage).
  assert (E1 : st1 = setSends (append p)
                       (setIsBotTyping true
                          (setMessages (append userMessage) (setIsLoading true st)))).
  { subst st1. cbn [step]. unfold handleSend, handleSendMessage.
    rewrite Hl, orb_true_r. cbn [negb andb orb]. rewrite andb_false_r.
    reflexivity. }
  assert (Hk : nth_error (sends st1) k = Some p).
  { rewrite E1. proj. unfold append. apply nth_error_last. }
  assert (Hdrop : removeNth k (sends st1) = sends st).
  { rewrite E1. proj. unfold append. apply removeNth_last. }
  split; [rewrite E1; repeat split|].
  split; [|split].
  - intros now' st2. subst st2. cbn [step]. rewrite Hk. cbn [stage sendImage p].
    unfold settle. cbn [revokeUrl p]. rewrite Hu. rewrite E1. proj.
    split; [reflexivity|]. unfold append. rewrite <- app_assoc. reflexivity.
  - intros now' base64Data Hc. cbn [step]. rewrite Hk. cbn [stage sendImage p].
    unfold callModel, streamResponse_begin. proj. rewrite E1. proj. rewrite Hc.
    cbn [negb]. unfold settle. cbn [revokeUrl p]. rewrite Hu. reflexivity.
  - intros now' now'' base64Data stream Hc st2 st3.
    set (q := mkPendingSend text (Some f) (Some (objectUrl f))
                (AwaitingModel
                   (InlineData (fileType f) base64Data
                    :: (if truthy (trim text) then [Text text] else [])))).
    assert (E2 : st2 = setSends (append q) (setSends (removeNth k) st1)).
    { subst st2. cbn [step]. rewrite Hk. cbn [stage sendImage p].
      unfold callModel, streamResponse_begin. proj. rewrite E1. proj. rewrite Hc.
      cbn [negb mimeType data app sendText sendImage revokeUrl p]. reflexivity. }
    assert (Hs2 : sends st2 = sends st ++ [q]).
    { rewrite E2. proj. rewrite Hdrop. reflexivity. }
    split; [exact Hs2|]. split; [rewrite E2, E1; reflexivity|].
    assert (E3 : st3 = settle now'' q
                         (match stream with
                          | Normal chunks => Normal (streamResponse_end chunks)
                          | Throw => Throw
                          end)
                         (setSends (removeNth k) st2)).
    { subst st3. cbn [step]. rewrite Hs2. subst k. rewrite nth_error_last.
      cbn [stage q]. destruct stream; reflexivity. }
    rewrite E3. split.
    + unfold settle. cbn [revokeUrl q]. rewrite Hu.
      destruct stream; rewrite E2, E1; reflexivity.
    + match goal with
      | |- context [settle ?n ?a ?r ?s] =>
          destruct (settle_frame n a r s) as (Hm & _)
      end.
      rewrite Hm. apply in_or_app. left. rewrite E2, E1. proj. unfold append.
      apply in_or_app. right. left. reflexivity.
Qed.

(** The witness: a picture sent with a text, once with a failed read
    and once with a failed model call. *)
Lemma image_url_is_revoked_witness :
  let st := run initial [Mount true] in
  let f := mkFile (lit "image/png") (lit "blob:1") in
  let st1 := step st (Submit 1 (lit "Look") (Some f)) in
  revoked st1 = []
  /\ revoked (step st1 (ImageRead 2 0 Throw)) = [lit "blob:1"]
  /\ revoked (step (step st1 (ImageRead 2 0 (Normal (lit "AAAA"))))
                   (ModelDone 3 0 Throw)) = [lit "blob:1"].
Proof.
  intros st f st1.
  destruct (@image_url_is_revoked (run initial [Mount true]) 1 (lit "Look")
              (mkFile (lit "image/png") (lit "blob:1"))
              ltac:(vm_compute; reflexivity) ltac:(vm_compute; reflexivity))
    as ((_ & _ & H1) & H2 & _ & H4).
  destruct (H2 2%N) as (H2' & _).
  destruct (H4 2%N 3%N (lit "AAAA") Throw ltac:(vm_compute; reflexivity))
    as (_ & _ & H4' & _).
  repeat split; assumption.
Defined.

(** X9.  handleNewChat cancels nothing.  After a confirmed New chat the
    pending calls are still pending and the busy flag is cleared; when a
    pending model call then ends, its reply or error notice is appended
    to the new conversation, right after the greeting. *)
Theorem new_chat_keeps_pending_requests (st : State) (ok : bool) (now : N) (k : nat)
    (p : PendingSend) (parts : list Part) (stream : completion (list (option jsstring))) :
  nth_error (sends st) k = Some p -> stage p = AwaitingModel parts ->
  let st1 := step st (NewChat true ok) in
  let st2 := step st1 (ModelDone now k stream) in
  sends st1 = sends st
  /\ isLoading st1 = false
  /\ messages st2 =
       [ if ok then greeting else initError;
         match stream with
         | Normal chunks => botResponse now (streamResponse_end chunks)
         | Throw => errorMessage now
         end ].
Proof.
  intros Hk Hs st1 st2.
  assert (E1 : sends st1 = sends st)
    by (unfold st1; cbn [step]; unfold initChat; destruct ok; reflexivity).
  assert (M1 : messages st1 = [if ok then greeting else initError])
    by (unfold st1; cbn [step]; unfold initChat; destruct ok; reflexivity).
  split; [exact E1|].
  split; [unfold st1; cbn [step]; unfold initChat; destruct ok; reflexivity|].
  unfold st2. cbn [step]. rewrite E1, Hk, Hs.
  destruct stream;
    match goal with
    | |- context [settle ?n ?q ?r ?s] =>
        destruct (settle_frame n q r s) as (-> & _)
    end; proj; rewrite M1; reflexivity.
Qed.

(** The witness: New chat while the first question is unanswered. *)
Lemma new_chat_keeps_pending_requests_witness :
  let st := run initial [Mount true; Submit 1 (lit "Hi") None] in
  let st1 := step st (NewChat true true) in
  isLoading st = true /\ isLoading st1 = false
  /\ messages (step st1 (ModelDone 2 0 (Normal [Some (lit "Hello")])))
     = [greeting; botResponse 2 (streamResponse_end [Some (lit "Hello")])].
Proof.
  intros st st1.
  destruct (@new_chat_keeps_pending_requests
              (run initial [Mount true; Submit 1 (lit "Hi") None]) true 2 0
              (mkPendingSend (lit "Hi") None None (AwaitingModel [Text (lit "Hi")]))
              [Text (lit "Hi")] (Normal [Some (lit "Hello")])
              ltac:(vm_compute; reflexivity) ltac:(reflexivity))
    as (_ & H2 & H3).
  split; [vm_compute; reflexivity|]. split; assumption.
Defined.

Lemma locationPrompt_truthy latitude longitude :
  truthy (trim (locationPrompt latitude longitude)) = true.
Proof.
  unfold locationPrompt.
  assert (E : exists rest,
             lit "The user has shared their location. Latitude: " = 84%N :: rest)
    by (eexists; vm_compute; reflexivity).
  destruct E as [rest ->]. rewrite <- app_comm_cons.
  apply trim_truthy. reflexivity.
Qed.

Lemma locationPrompt_includes latitude longitude :
  includes latitude (locationPrompt latitude longitude) = true
  /\ includes longitude (locationPrompt latitude longitude) = true.
Proof.
  unfold locationPrompt. split; [apply includes_app|].
  rewrite (app_assoc _ latitude), (app_assoc _ (lit ", Longitude: ")).
  apply includes_app.
Qed.

(** X10.  When a pending position request succeeds in a reachable
    state, the placeholder is removed, nothing is appended, and a
    hidden prompt that spells both coordinates is sent to the model. *)
Theorem geolocation_success_sends_coordinates (es : list Event) (now : N)
    (k : nat) (g : PendingGeo) (latitude longitude : jsstring) :
  let st := run initial es in
  nth_error (geos st) k = Some g ->
  let st' := step st (GeoDone now k (Position latitude longitude)) in
  let prompt := locationPrompt latitude longitude in
  messages st' = filter (fun m => negb (eqb (id m) (locatingId g))) (messages st)
  /\ sends st' = sends st ++ [mkPendingSend prompt None None (AwaitingModel [Text prompt])]
  /\ geos st' = removeNth k (geos st)
  /\ includes latitude prompt = true /\ includes longitude prompt = true.
Proof.
  intros st Hk st' prompt.
  pose proof (reachable_wellFormed es) as [Hg Hn]. fold st in Hg, Hn.
  assert (Hcap : capturedIsLoading g = false)
    by exact (@Forall_nth_error _ _ _ _ _ Hg Hk).
  assert (Hc : chat st = true).
  { destruct (chat st) eqn:Hc; [reflexivity|].
    destruct (Hn eq_refl) as (_ & _ & Hd). rewrite Hd in Hk.
    destruct k; discriminate Hk. }
  assert (Hst' : st' = handleSendMessage false now prompt None true
                         (setMessages (filter (fun m => negb (eqb (id m) (locatingId g))))
                                      (setGeos (removeNth k) st))).
  { subst st'. cbn [step]. rewrite Hk. unfold geoCallback. rewrite Hcap.
    reflexivity. }
  destruct (@hidden_prompt_is_sent now prompt
              (setMessages (filter (fun m => negb (eqb (id m) (locatingId g))))
                           (setGeos (removeNth k) st))
              (locationPrompt_truthy latitude longitude) Hc) as (Hm & Hs & Hgeo).
  rewrite <- Hst' in Hm, Hs, Hgeo. proj.
  destruct (locationPrompt_includes latitude longitude) as [Hlat Hlon].
  repeat split; assumption.
Qed.

(** The witness: the position arrives after the facility option was
    selected. *)
Lemma geolocation_success_witness :
  let st := run initial [ Mount true; Submit 1 (lit "I have a headache") None;
                          ModelDone 2 0 (Normal [Some followUpText]);
                          Click 3 true 2 1 ] in
  let st' := step st (GeoDone 4 0 (Position (lit "12.97") (lit "77.59"))) in
  let prompt := locationPrompt (lit "12.97") (lit "77.59") in
  messages st' =
    filter (fun m => negb (eqb (id m) (lit "bot-locating-3"))) (messages st)
  /\ sends st' = sends st ++ [mkPendingSend prompt None None (AwaitingModel [Text prompt])]
  /\ includes (lit "12.97") prompt = true.
Proof.
  intros st st' prompt.
  destruct (@geolocation_success_sends_coordinates
              [ Mount true; Submit 1 (lit "I have a headache") None;
                ModelDone 2 0 (Normal [Some followUpText]); Click 3 true 2 1 ]
              4 0 (mkPendingGeo (lit "bot-locating-3") false)
              (lit "12.97") (lit "77.59")
              ltac:(vm_compute; reflexivity)) as (H1 & H2 & _ & H4 & _).
  repeat split; assumption.
Defined.

Lemma ofNumber_digit (n : N) :
  exists c rest, ofNumber n = c :: rest /\ isDigit c = true.
Proof.
  unfold ofNumber, NilZero.string_of_uint.
  destruct (N.to_uint n); simpl; eexists; eexists; split; reflexivity.
Qed.

Lemma startsWith_diverge (a t rest : jsstring) (x c : N) :
  N.eqb x c = false -> startsWith (a ++ x :: t) (a ++ c :: rest) = false.
Proof.
  intros H. induction a as [|y a IH]; simpl.
  - rewrite H. reflexivity.
  - rewrite N.eqb_refl. exact IH.
Qed.

Lemma bot_id_is_no_placeholder (now : N) :
  startsWith placeholderPrefix (lit "bot-" ++ ofNumber now) = false.
Proof.
  destruct (ofNumber_digit now) as (c & rest & -> & Hc).
  change placeholderPrefix with (lit "bot-" ++ 108%N :: lit "ocating-").
  apply startsWith_diverge.
  unfold isDigit in Hc. apply andb_true_iff in Hc. destruct Hc as [_ Hc].
  apply N.leb_le in Hc. apply N.eqb_neq. lia.
Qed.

Lemma store_placeholderOrOther (es : list Event) :
  Forall placeholderOrOther (messages (run initial es)).
Proof.
  apply reachable_Inv.
  - right. vm_compute. reflexivity.
  - right. vm_compute. reflexivity.
  - intros now text image. right. reflexivity.
  - intros now responseText. right. unfold botResponse.
    destruct (cleanAndParseJson responseText); cbn [id];
      apply bot_id_is_no_placeholder.
  - intros now. right. reflexivity.
  - intros now. left. exists now. reflexivity.
Qed.

Lemma geos_clickOption now geolocation index k st :
  Forall placeholderRequest (geos st) ->
  Forall placeholderRequest (geos (clickOption now geolocation index k st)).
Proof.
  intros H. unfold clickOption.
  destruct (nth_error (messages st) index) as [m|]; [|exact H].
  destruct (role m), (isQuestion m) as [[|]|], (options m) as [os|];
    try exact H;
    (destruct (nth_error os k) as [[| | |optionText| |]|]; [..|exact H];
     destruct (optionsDisabled st index); try exact H;
     unfold handleOptionClick, handleLocationRequest;
     destruct (_ && _); [destruct geolocation; cbn [negb]|];
     try (rewrite geos_handleSendMessage; exact H);
     proj; unfold append; apply Forall_snoc; [exact H | exists now; reflexivity]).
Qed.

Lemma step_geos st e :
  Forall placeholderRequest (geos st) -> Forall placeholderRequest (geos (step st e)).
Proof.
  intros H. destruct e as [ok|confirmed ok|now text image|now geolocation index k
                          |now k base64|now k stream|now k result]; cbn [step].
  - unfold initChat. destruct ok; exact H.
  - destruct confirmed; [|exact H]. unfold initChat. destruct ok; exact H.
  - unfold handleSend. destruct (_ && _); [|exact H].
    rewrite geos_handleSendMessage. exact H.
  - apply geos_clickOption; exact H.
  - destruct (nth_error (sends st) k) as [p|]; [|exact H].
    destruct (stage p); [|exact H].
    destruct (sendImage p); [|exact H].
    destruct base64.
    + rewrite geos_callModel. exact H.
    + match goal with
      | |- context [settle ?n ?q ?r ?s] =>
          destruct (settle_frame n q r s) as (_ & _ & _ & ->)
      end. exact H.
  - destruct (nth_error (sends st) k) as [p|]; [|exact H].
    destruct (stage p); [exact H|].
    destruct stream;
      match goal with
      | |- context [settle ?n ?q ?r ?s] =>
          destruct (settle_frame n q r s) as (_ & _ & _ & ->)
      end; exact H.
  - destruct (nth_error (geos st) k) as [g|]; [|exact H].
    unfold geoCallback. rewrite geos_handleSendMessage. proj.
    apply Forall_removeNth; exact H.
Qed.

(** X11.  The filter of a geolocation callback removes by id.  In every
    reachable state a stored message that has the id of a pending
    position request is a locating placeholder: no user message, reply
    or notice is ever removed by the filter. *)
Theorem only_placeholders_are_removed (es : list Event) (k : nat) (g : PendingGeo)
    (m : Message) :
  let st := run initial es in
  nth_error (geos st) k = Some g ->
  In m (messages st) ->
  id m = locatingId g ->
  exists n, m = locatingMessage n.
Proof.
  intros st Hk Hin Hid.
  assert (Hg : placeholderRequest g).
  { refine (@Forall_nth_error _ _ _ _ _ _ Hk).
    apply (run_preserves (fun s => Forall placeholderRequest (geos s)) step_geos).
    constructor. }
  pose proof (store_placeholderOrOther es) as Hs. fold st in Hs.
  rewrite Forall_forall in Hs. destruct (Hs m Hin) as [Hp|Hp]; [exact Hp|].
  destruct Hg as [n Hn]. rewrite Hid, Hn, startsWith_app in Hp. discriminate Hp.
Qed.

(** The witness: the placeholder of the pending position request. *)
Lemma only_placeholders_are_removed_witness :
  exists n, locatingMessage 3 = locatingMessage n.
Proof.
  apply (@only_placeholders_are_removed
           [ Mount true; Submit 1 (lit "I have a headache") None;
                ModelDone 2 0 (Normal [Some followUpText]); Click 3 true 2 1 ]
           0 (mkPendingGeo (lit "bot-locating-3") false) (locatingMessage 3)).
  - vm_compute. reflexivity.
  - vm_compute. do 4 right. left. reflexivity.
  - vm_compute. reflexivity.
Defined.

Section StoreContent.

Variable P : Message -> Prop.

Hypothesis C_greeting : P greeting.
Hypothesis C_initError : P initError.
Hypothesis C_user : forall now text image,
  truthy (trim text) = true \/ image <> None ->
  P (mkMessage (lit "user-" ++ ofNumber now) USER text
               (option_map objectUrl image) None None).
Hypothesis C_bot : forall now responseText,
  truthy (trim responseText) = true -> P (botResponse now responseText).
Hypothesis C_error : forall now, P (errorMessage now).
Hypothesis C_locating : forall now, P (locatingMessage now).

Local Abbreviation Holds := (storeSatisfies P).

Lemma settle_content now p r st :
  Holds st ->
  match r with Normal t => truthy (trim t) = true | Throw => True end ->
  Holds (settle now p r st).
Proof.
  intros H Hr. unfold storeSatisfies.
  destruct (settle_frame now p r st) as (-> & _).
  apply Forall_snoc; [exact H|]. destruct r; [apply C_bot, Hr | apply C_error].
Qed.

Lemma callModel_content now p imagePart st :
  Holds st -> Holds (callModel now p imagePart st).
Proof.
  intros H. unfold callModel, streamResponse_begin.
  destruct (chat st); cbn [negb]; [|apply settle_content; [exact H | exact I]].
  destruct (_ ++ _); [|exact H].
  apply settle_content; [exact H | vm_compute; reflexivity].
Qed.

Lemma handleSendMessage_content flag now text image isHidden st :
  Holds st -> Holds (handleSendMessage flag now text image isHidden st).
Proof.
  intros H. unfold handleSendMessage.
  destruct ((_ && _) || flag) eqn:G; [exact H|].
  apply orb_false_elim in G. destruct G as [G _].
  assert (Hu : truthy (trim text) = true \/ image <> None).
  { destruct (truthy (trim text)); [left; reflexivity|].
    destruct image; [right; discriminate | discriminate G]. }
  destruct isHidden, image as [f|]; cbn [negb];
    try apply callModel_content; unfold storeSatisfies; proj; try exact H;
    unfold append; (apply Forall_snoc; [exact H|]).
  - exact (@C_user now text (Some f) Hu).
  - exact (@C_user now text None Hu).
Qed.

Lemma handleOptionClick_content now geolocation optionText st :
  Holds st -> Holds (handleOptionClick now geolocation optionText st).
Proof.
  intros H. unfold handleOptionClick, handleLocationRequest.
  destruct (_ && _); [destruct geolocation; cbn [negb]|];
    try (apply handleSendMessage_content; exact H).
  unfold storeSatisfies. proj. apply Forall_app. split; [exact H|].
  repeat constructor; [|apply C_locating].
  apply (@C_user now _ None). left. vm_compute. reflexivity.
Qed.

Lemma step_content st e : Holds st -> Holds (step st e).
Proof.
  intros H. destruct e as [ok|confirmed ok|now text image|now geolocation index k
                          |now k base64|now k stream|now k result]; cbn [step].
  - unfold initChat, storeSatisfies. destruct ok; proj; repeat constructor; assumption.
  - destruct confirmed; [|exact H].
    unfold initChat, storeSatisfies. destruct ok; proj; repeat constructor; assumption.
  - unfold handleSend. destruct (_ && _); [|exact H].
    apply handleSendMessage_content; exact H.
  - unfold clickOption.
    destruct (nth_error (messages st) index) as [m|]; [|exact H].
    destruct (role m), (isQuestion m) as [[|]|], (options m) as [os|];
      try exact H;
      (destruct (nth_error os k) as [[| | |optionText| |]|]; [..|exact H];
       destruct (optionsDisabled st index); try exact H;
       apply handleOptionClick_content; exact H).
  - destruct (nth_error (sends st) k) as [p|]; [|exact H].
    destruct (stage p); [|exact H].
    destruct (sendImage p); [|exact H].
    destruct base64; [apply callModel_content | apply settle_content]; try exact H.
    exact I.
  - destruct (nth_error (sends st) k) as [p|]; [|exact H].
    destruct (stage p); [exact H|].
    destruct stream; apply settle_content; try exact H;
      [apply streamResponse_end_truthy | exact I].
  - destruct (nth_error (geos st) k) as [g|]; [|exact H].
    unfold geoCallback. apply handleSendMessage_content.
    unfold storeSatisfies. proj. apply Forall_forall. intros m Hm.
    apply filter_In in Hm. destruct Hm as [Hm _].
    unfold storeSatisfies in H. rewrite Forall_forall in H. auto.
Qed.

Lemma reachable_content es : Forall P (messages (run initial es)).
Proof.
  apply (run_preserves (storeSatisfies P) step_content). constructor.
Qed.

End StoreContent.

Lemma truthy_trim_nonempty (t : jsstring) : truthy (trim t) = true -> t <> [].
Proof. intros H ->. discriminate H. Qed.

(** X12.  No reachable store holds an empty message: every user message
    has a non-blank text or an image, and every assistant or system
    message has a text. *)
Theorem stored_messages_have_content (es : list Event) :
  Forall hasContent (messages (run initial es)).
Proof.
  apply reachable_content; unfold hasContent.
  - discriminate.
  - discriminate.
  - intros now text image [H|H]; cbn [role Types.text imageUrl]; [left; exact H|].
    right. destruct image; [discriminate | contradiction H; reflexivity].
  - intros now responseText H. unfold botResponse.
    destruct (cleanAndParseJson responseText) as [[q os]|] eqn:E; cbn [role Types.text].
    + apply ClassifierFacts.cleanAndParseJson_Some in E.
      destruct E as (_ & _ & _ & ms & _ & _ & Hq & _). exact Hq.
    + apply truthy_trim_nonempty, H.
  - discriminate.
  - discriminate.
Qed.

(** X13.  In every reachable store the optional fields fit the role:
    a user message carries no options and no question mark, an
    assistant message no image, and a system message is one of the two
    fixed notices with no optional field at all. *)
Theorem stored_fields_fit_role (es : list Event) :
  Forall fieldsFitRole (messages (run initial es)).
Proof.
  apply reachable_Inv; unfold fieldsFitRole.
  - reflexivity.
  - repeat split. left. reflexivity.
  - intros. split; reflexivity.
  - intros now responseText. unfold botResponse.
    destruct (cleanAndParseJson responseText); reflexivity.
  - intros now. repeat split. right. reflexivity.
  - reflexivity.
Qed.

(** X19.  A click on an enabled option button of a question, other than
    a request for a facility, does exactly what typing the option's text
    into the input box and sending it does. *)
Theorem click_is_submission (now : N) (geolocation : bool) (index k : nat)
    (st : State) (m : Message) (os : list json) (optionText : jsstring) :
  nth_error (messages st) index = Some m ->
  role m = BOT -> isQuestion m = Some true -> options m = Some os ->
  nth_error os k = Some (JString optionText) ->
  optionsDisabled st index = false ->
  includes (lit "find a facility") (toLowerCase optionText) = false ->
  clickOption now geolocation index k st = step st (Submit now optionText None).
Proof.
  intros Hm Hr Hq Ho Hk Hd Hf. unfold clickOption.
  rewrite Hm, Hr, Hq, Ho, Hk, Hd. unfold handleOptionClick. rewrite Hf.
  cbn [andb]. apply handleSendMessage_is_Submit.
Qed.

(** The witness: the first option of the follow-up question. *)
Lemma click_is_submission_witness :
  clickOption 3 true 2 0 followUpState
  = step followUpState (Submit 3 (lit "I'll follow the advice for now.") None).
Proof.
  apply (@click_is_submission 3 true 2 0 followUpState
           (botResponse 2 followUpText)
           [JString (lit "I'll follow the advice for now.");
            JString (lit "Help me find a facility.")]
           (lit "I'll follow the advice for now."));
    vm_compute; reflexivity.
Defined.

Lemma chat_callModel now p imagePart st :
  chat (callModel now p imagePart st) = chat st.
Proof.
  unfold callModel.
  destruct (streamResponse_begin (chat st) (sendText p) imagePart);
    try apply settle_frame. reflexivity.
Qed.

Lemma chat_handleSendMessage flag now text image isHidden st :
  chat (handleSendMessage flag now text image isHidden st) = chat st.
Proof.
  unfold handleSendMessage. destruct (_ || flag); [reflexivity|].
  destruct isHidden, image as [f|]; cbn [negb];
    try rewrite chat_callModel; reflexivity.
Qed.

Lemma chat_clickOption now geolocation index k st :
  chat (clickOption now geolocation index k st) = chat st.
Proof.
  unfold clickOption.
  destruct (nth_error (messages st) index) as [m|]; [|reflexivity].
  destruct (role m), (isQuestion m) as [[|]|], (options m) as [os|];
    try reflexivity;
    (destruct (nth_error os k) as [[| | |optionText| |]|]; [..|reflexivity];
     destruct (optionsDisabled st index); try reflexivity;
     unfold handleOptionClick, handleLocationRequest;
     destruct (_ && _); [destruct geolocation; cbn [negb]|];
     try apply chat_handleSendMessage; reflexivity).
Qed.

Lemma step_chat st e : chat st = true -> chat (step st e) = true.
Proof.
  intros H. destruct e as [ok|confirmed ok|now text image|now geolocation index k
                          |now k base64|now k stream|now k result]; cbn [step].
  - unfold initChat. destruct ok; [reflexivity | exact H].
  - destruct confirmed; [|exact H]. unfold initChat. destruct ok; [reflexivity | exact H].
  - unfold handleSend. destruct (_ && _); [|exact H].
    rewrite chat_handleSendMessage. exact H.
  - rewrite chat_clickOption. exact H.
  - destruct (nth_error (sends st) k) as [p|]; [|exact H].
    destruct (stage p); [|exact H].
    destruct (sendImage p); [|exact H].
    destruct base64.
    + rewrite chat_callModel. exact H.
    + match goal with
      | |- context [settle ?n ?q ?r ?s] =>
          destruct (settle_frame n q r s) as (_ & -> & _)
      end. exact H.
  - destruct (nth_error (sends st) k) as [p|]; [|exact H].
    destruct (stage p); [exact H|].
    destruct stream;
      match goal with
      | |- context [settle ?n ?q ?r ?s] =>
          destruct (settle_frame n q r s) as (_ & -> & _)
      end; exact H.
  - destruct (nth_error (geos st) k) as [g|]; [|exact H].
    unfold geoCallback. rewrite chat_handleSendMessage. exact H.
Qed.

(** X20.  Once a chat session exists no event removes it: a New chat
    whose initialisation fails shows the notice of failure and leaves
    the earlier session in place. *)
Theorem chat_session_survives (st : State) (es : list Event) :
  chat st = true -> chat (run st es) = true.
Proof.
  intros H. exact (run_preserves (fun s => chat s = true) step_chat es st H).
Qed.

(** The witness: a failed re-initialisation, then a submission. *)
Lemma chat_session_survives_witness :
  let st := run initial [Mount true; NewChat true false] in
  messages st = [initError]
  /\ chat (run st [Submit 1 (lit "Hi") None]) = true.
Proof.
  intros st. split; [vm_compute; reflexivity|].
  apply chat_session_survives. vm_compute. reflexivity.
Defined.

End ControllerFacts.

(* ================================================================== *)
(** ** Further properties: groups recorded by a match *)
(* ================================================================== *)

Module CaptureFacts.
Import JS RegExp RegExpFacts RenderingNotions.

Lemma grows_refl x : grows x x.
Proof. intros i H. exact H. Qed.

Lemma grows_trans x y z : grows x y -> grows y z -> grows x z.
Proof. intros H1 H2 i H. apply H2, H1, H. Qed.

Lemma step1_records p : records [] (step1 p).
Proof.
  intros x c z H. unfold step1 in H.
  destruct (rest x) as [|ch t]; [discriminate H|].
  destruct (p ch); [|discriminate H].
  eexists. split; [exact H|]. split; [intros i Hi; exact Hi | intros i []].
Qed.

Lemma repeatMatcher_records S m greedy :
  records S m ->
  forall fuel min x c z,
    repeatMatcher fuel m min greedy x c = Some z ->
    exists y, c y = Some z /\ grows x y
              /\ forall i, In i (if Nat.eqb min 0 then [] else S) ->
                           captured i y = true.
Proof.
  intros Hm fuel. induction fuel as [|fuel IH]; intros min x c z H; [discriminate H|].
  cbn [repeatMatcher] in H.
  assert (Hloop :
    m x (fun y => if Nat.eqb min 0 && Nat.eqb (endIndex y) (endIndex x) then None
                  else repeatMatcher fuel m (Nat.pred min) greedy y c) = Some z ->
    exists y, c y = Some z /\ grows x y /\ forall i, In i S -> captured i y = true).
  { intros Hd. destruct (Hm _ _ _ Hd) as (y1 & Hy1 & G1 & S1).
    destruct (Nat.eqb min 0 && Nat.eqb (endIndex y1) (endIndex x));
      [discriminate Hy1|].
    destruct (IH _ _ _ _ Hy1) as (y & Hy & G & _).
    exists y. split; [exact Hy|]. split; [exact (grows_trans G1 G)|].
    intros i Hi. apply G, S1, Hi. }
  destruct (Nat.eqb min 0) eqn:E0; cbn [negb] in H.
  - assert (Hx : c x = Some z ->
                 exists y, c y = Some z /\ grows x y
                           /\ forall i, In i (@nil nat) -> captured i y = true).
    { intros Hc. exists x. split; [exact Hc|]. split; [apply grows_refl | intros i []]. }
    assert (Hl : m x (fun y => if true && Nat.eqb (endIndex y) (endIndex x) then None
                  else repeatMatcher fuel m (Nat.pred min) greedy y c) = Some z ->
                 exists y, c y = Some z /\ grows x y
                           /\ forall i, In i (@nil nat) -> captured i y = true).
    { intros Hd. destruct (Hloop Hd) as (y & Hy & G & _).
      exists y. split; [exact Hy|]. split; [exact G | intros i []]. }
    destruct greedy.
    + match type of H with
      | match ?t with _ => _ end = _ =>
          assert (Hcase : t = Some z \/ c x = Some z)
            by (clear - H; destruct t; [left; exact H | right; exact H])
      end.
      destruct Hcase as [Hd|Hc]; [apply Hl, Hd | apply Hx, Hc].
    + assert (Hcase : c x = Some z \/
                m x (fun y => if true && Nat.eqb (endIndex y) (endIndex x) then None
                  else repeatMatcher fuel m (Nat.pred min) false y c) = Some z).
      { clear - H. destruct (c x); [left; exact H | right; exact H]. }
      destruct Hcase as [Hc|Hd]; [apply Hx, Hc | apply Hl, Hd].
  - apply Hloop, H.
Qed.

Lemma compile_records dotAll r : records (sets r) (compile dotAll r).
Proof.
  induction r as [| k | | | | r1 IH1 r2 IH2 | r1 IH1 r2 IH2
                 | min greedy r' IH | i r' IH | r' IH | ]; cbn [compile sets].
  - intros x c z H. exists x. split; [exact H|].
    split; [apply grows_refl | intros i []].
  - apply step1_records.
  - apply step1_records.
  - apply step1_records.
  - apply step1_records.
  - intros x c z H. destruct (IH1 _ _ _ H) as (y1 & H1 & G1 & S1).
    destruct (IH2 _ _ _ H1) as (y2 & H2 & G2 & S2).
    exists y2. split; [exact H2|]. split; [exact (grows_trans G1 G2)|].
    intros i Hi. apply in_app_or in Hi. destruct Hi as [Hi|Hi];
      [apply G2, S1, Hi | apply S2, Hi].
  - intros x c z H.
    destruct (compile dotAll r1 x c) as [z'|] eqn:E1.
    + injection H as ->. destruct (IH1 _ _ _ E1) as (y & Hy & G & Sy).
      exists y. split; [exact Hy|]. split; [exact G|].
      intros i Hi. apply filter_In in Hi. apply Sy, Hi.
    + destruct (IH2 _ _ _ H) as (y & Hy & G & Sy).
      exists y. split; [exact Hy|]. split; [exact G|].
      intros i Hi. apply filter_In in Hi. destruct Hi as [_ Hi].
      apply existsb_exists in Hi. destruct Hi as (j & Hj & Hij).
      apply Nat.eqb_eq in Hij. subst j. apply Sy, Hj.
  - intros x c z H. exact (repeatMatcher_records greedy IH _ _ _ _ H).
  - intros x c z H. destruct (IH _ _ _ H) as (y & Hy & G & Sy).
    eexists. split; [exact Hy|]. split.
    + intros j Hj. unfold captured. cbn [captures existsb fst].
      apply orb_true_iff. right. apply G, Hj.
    + intros j [<-|Hj]; unfold captured; cbn [captures existsb fst].
      * rewrite Nat.eqb_refl. reflexivity.
      * apply orb_true_iff. right. apply Sy, Hj.
  - intros x c z H.
    destruct (compile dotAll r' x (fun y => Some y)) as [y'|] eqn:E; [|discriminate H].
    destruct (IH _ _ _ E) as (y & Hy & G & Sy). injection Hy as ->.
    eexists. split; [exact H|]. split; [exact G | exact Sy].
  - intros x c z H. destruct (Nat.eqb (endIndex x) 0); [|discriminate H].
    exists x. split; [exact H|]. split; [apply grows_refl | intros i []].
Qed.

Lemma capture_found s y i : captured i y = true -> capture s (captures y) i <> None.
Proof.
  unfold captured, capture. intros H.
  destruct (find (fun e => Nat.eqb (fst e) i) (captures y)) as [[j [a b]]|] eqn:E;
    [discriminate|].
  apply existsb_exists in H. destruct H as (e & He & Hi).
  rewrite (find_none _ _ E e He) in Hi. discriminate Hi.
Qed.

Lemma matchAt_groups dotAll r s q m :
  total r = true -> matchAt dotAll r s q = Some m ->
  Forall (fun g => g <> None) (group m).
Proof.
  unfold matchAt. intros Ht H.
  destruct (compile dotAll r (mkMatchState q (skipn q s) []) (fun y => Some y))
    as [y|] eqn:E; [|discriminate H].
  injection H as <-. cbn [group].
  destruct (compile_records dotAll r _ _ E) as (y' & Hy & _ & Sy).
  injection Hy as ->.
  apply Forall_forall. intros g Hg. apply in_map_iff in Hg.
  destruct Hg as (i & <- & Hi). apply capture_found, Sy.
  unfold total in Ht. rewrite forallb_forall in Ht. specialize (Ht i Hi).
  apply existsb_exists in Ht. destruct Ht as (j & Hj & Hij).
  apply Nat.eqb_eq in Hij. subst j. exact Hj.
Qed.

Lemma splitLoop_defined dotAll r s :
  total r = true ->
  forall fuel p q, Forall (fun g => g <> None) (splitLoop fuel dotAll r s p q).
Proof.
  intros Ht fuel. induction fuel as [|fuel IH]; intros p q; cbn [splitLoop].
  - repeat constructor. discriminate.
  - destruct (Nat.ltb q (List.length s)); [|repeat constructor; discriminate].
    destruct (matchAt dotAll r s q) as [m|] eqn:Em; [|apply IH].
    cbv zeta. destruct (Nat.eqb _ p); [apply IH|].
    constructor; [discriminate|]. apply Forall_app. split; [|apply IH].
    exact (matchAt_groups _ _ _ _ Ht Em).
Qed.

Lemma split_defined dotAll r s :
  total r = true -> Forall (fun g => g <> None) (split dotAll r s).
Proof.
  intros Ht. unfold split. destruct s as [|c s].
  - destruct (matchAt dotAll r [] 0); repeat constructor. discriminate.
  - apply splitLoop_defined, Ht.
Qed.

End CaptureFacts.

(* ================================================================== *)
(** ** Further properties: components/ChatMessage.tsx *)
(* ================================================================== *)

Module RenderingFacts.
Import JS RegExp RegExpFacts ChatMessage JSFacts ChatMessageFacts.
Import RenderingNotions CaptureFacts.

Lemma formatParts_defined ps :
  Forall (fun g : option jsstring => g <> None) ps ->
  exists rs, formatParts ps = Normal rs.
Proof.
  induction 1 as [|[p|] ps Hp _ IH]; cbn [formatParts].
  - eexists. reflexivity.
  - destruct IH as (rs & ->). eexists. reflexivity.
  - contradiction Hp. reflexivity.
Qed.

Lemma filterNonBlank_defined ps :
  Forall (fun g : option jsstring => g <> None) ps ->
  exists l, filterNonBlank ps = Normal l.
Proof.
  induction 1 as [|[p|] ps Hp _ IH]; cbn [filterNonBlank].
  - eexists. reflexivity.
  - destruct IH as (rs & ->). eexists. reflexivity.
  - contradiction Hp. reflexivity.
Qed.

Lemma execFrom_matchAt dotAll r s m :
  forall n q, execFrom dotAll r s n q = Some m ->
              exists q', matchAt dotAll r s q' = Some m.
Proof.
  induction n as [|n IH]; intros q H; cbn [execFrom] in H;
    destruct (matchAt dotAll r s q) as [m'|] eqn:E.
  - exists q. congruence.
  - discriminate H.
  - exists q. congruence.
  - exact (IH _ H).
Qed.

Lemma total_inlinePattern : total inlinePattern = true.
Proof. vm_compute. reflexivity. Qed.

Lemma total_partsPattern : total partsPattern = true.
Proof. vm_compute. reflexivity. Qed.

Lemma total_introPattern : total introPattern = true.
Proof. vm_compute. reflexivity. Qed.

(** X14.  Neither FormattedText nor parseBotResponse throws, whatever
    the text: every group that their patterns splice into a split, or
    that the code reads from a match, is recorded by every match, so no
    method is ever called on [undefined]. *)
Theorem rendering_never_throws (text : jsstring) :
  (exists rs, FormattedText text = Normal rs)
  /\ (exists p, parseBotResponse text = Normal p).
Proof.
  split.
  - apply formatParts_defined, split_defined, total_inlinePattern.
  - unfold parseBotResponse.
    destruct (exec false sectionMarker text) as [_m|]; [|eexists; reflexivity].
    cbv zeta.
    match goal with
    | |- exists p, match ?im with Normal _ => _ | Throw => _ end = Normal p =>
        assert (Him : exists i r, im = Normal (i, r))
    end.
    { destruct (exec true introPattern text) as [m|] eqn:Em;
        [|eexists; eexists; reflexivity].
      unfold exec in Em. apply execFrom_matchAt in Em. destruct Em as (q & Em).
      pose proof (matchAt_groups _ _ _ _ total_introPattern Em) as Hg.
      assert (Hlen : exists g1 g2, group m = [g1; g2]).
      { unfold matchAt in Em.
        destruct (compile true introPattern _ _); [|discriminate Em].
        injection Em as <-. cbn [group]. eexists. eexists. reflexivity. }
      destruct Hlen as (g1 & g2 & Hlen). rewrite Hlen in Hg |- *.
      inversion Hg as [|? ? H1 _]; subst. cbn [nth].
      destruct g1 as [g1|]; [|contradiction H1; reflexivity].
      eexists. eexists. reflexivity. }
    destruct Him as (i & r & ->).
    destruct (filterNonBlank_defined
                (split_defined false partsPattern r total_partsPattern))
      as (l & ->).
    eexists. reflexivity.
Qed.

(** A pattern that is one group around everything records the whole
    match as that group. *)
Lemma matchAt_whole_group dotAll r s q m :
  groups r = 0 -> matchAt dotAll (Group 1 r) s q = Some m ->
  group m = [Some (firstn (lastIndex m - q) (skipn q s))].
Proof.
  unfold matchAt. cbn [compile groups]. intros Hg H. rewrite Hg in H.
  destruct (compile_enumerates dotAll r (mkMatchState q (skipn q s) []))
    as (ys & _ & E).
  rewrite E in H. destruct ys as [|y ys]; cbn [firstSome] in H; [discriminate H|].
  injection H as <-. cbn [group lastIndex endIndex captures Nat.max seq map].
  unfold capture. cbn [find fst Nat.eqb]. reflexivity.
Qed.

Lemma skipn_firstn_skipn (s : jsstring) (p q : nat) :
  p <= q -> firstn (q - p) (skipn p s) ++ skipn q s = skipn p s.
Proof.
  intros H. replace (skipn q s) with (skipn (q - p) (skipn p s)).
  - apply firstn_skipn.
  - rewrite skipn_skipn. f_equal. lia.
Qed.

Lemma splitLoop_whole dotAll r s :
  groups r = 0 ->
  forall fuel p q, p <= q ->
    exists pieces, splitLoop fuel dotAll (Group 1 r) s p q = map Some pieces
                   /\ List.concat pieces = skipn p s.
Proof.
  intros Hg fuel. induction fuel as [|fuel IH]; intros p q Hpq; cbn [splitLoop].
  - exists [skipn p s]. split; [reflexivity | apply app_nil_r].
  - destruct (Nat.ltb q (List.length s)) eqn:Hq;
      [|exists [skipn p s]; split; [reflexivity | apply app_nil_r]].
    apply Nat.ltb_lt in Hq.
    destruct (matchAt dotAll (Group 1 r) s q) as [m|] eqn:Em;
      [|apply IH; lia].
    cbv zeta. destruct (Nat.eqb _ p); [apply IH; lia|].
    rewrite (@matchAt_whole_group dotAll r s q m Hg Em).
    destruct (@matchAt_bounds dotAll (Group 1 r) s q m Em) as (H1 & H2).
    assert (He : Nat.min (lastIndex m) (List.length s) = lastIndex m) by lia.
    rewrite He.
    destruct (IH (lastIndex m) (lastIndex m) (le_n _)) as (pieces & -> & Hc).
    exists (firstn (q - p) (skipn p s)
              :: firstn (lastIndex m - q) (skipn q s) :: pieces).
    split; [reflexivity|].
    cbn [List.concat]. rewrite Hc, (skipn_firstn_skipn s H1).
    apply skipn_firstn_skipn, Hpq.
Qed.

(** X15.  FormattedText splits the text at the bold and link markers
    and loses none of it: no piece is undefined, and the pieces in order
    make up the text. *)
Theorem inline_pieces_make_up_text (text : jsstring) :
  exists pieces, split false inlinePattern text = map Some pieces
                 /\ List.concat pieces = text.
Proof.
  unfold split. destruct text as [|c text].
  - destruct (matchAt false inlinePattern [] 0) as [m|] eqn:Em.
    + exists []. split; reflexivity.
    + exists [[]]. split; reflexivity.
  - unfold inlinePattern.
    refine (@splitLoop_whole false _ (c :: text) _ _ 0 0 (le_n 0)).
    reflexivity.
Qed.

(** No marker of the inline pattern can begin at a code unit other
    than an asterisk or an opening bracket. *)
Lemma matchAt_inlinePattern (text : jsstring) (q : nat) :
  ~ In 42%N text -> ~ In 91%N text -> matchAt false inlinePattern text q = None.
Proof.
  intros Hs Hb. unfold matchAt, inlinePattern, Cat, C, Str.
  change (lit "**") with [42%N; 42%N]. change (lit "[") with [91%N].
  cbn [fold_right compile]. unfold step1. cbn [rest].
  assert (Hq : forall c, In c (skipn q text) -> In c text)
    by (intros c; apply In_skipn).
  destruct (skipn q text) as [|ch t]; [reflexivity|].
  assert (H42 : N.eqb 42 ch = false).
  { apply N.eqb_neq. intros <-. apply Hs, Hq. left. reflexivity. }
  assert (H91 : N.eqb 91 ch = false).
  { apply N.eqb_neq. intros <-. apply Hb, Hq. left. reflexivity. }
  rewrite H42, H91. reflexivity.
Qed.

Lemma splitLoop_no_match dotAll r s :
  (forall q, matchAt dotAll r s q = None) ->
  forall fuel p q, splitLoop fuel dotAll r s p q = [Some (skipn p s)].
Proof.
  intros H fuel. induction fuel as [|fuel IH]; intros p q; cbn [splitLoop];
    [reflexivity|].
  destruct (Nat.ltb q (List.length s)); [|reflexivity].
  rewrite H. apply IH.
Qed.

Lemma exec_linkPattern (text : jsstring) :
  ~ In 91%N text -> exec false linkPattern text = None.
Proof.
  intros Hb. unfold exec. generalize 0. generalize (List.length text).
  assert (Hm : forall q, matchAt false linkPattern text q = None).
  { intros q. unfold matchAt, linkPattern, Cat, C, Str.
    change (lit "[") with [91%N].
    cbn [fold_right compile]. unfold step1. cbn [rest].
    assert (Hq : forall c, In c (skipn q text) -> In c text)
      by (intros c; apply In_skipn).
    destruct (skipn q text) as [|ch t]; [reflexivity|].
    assert (H91 : N.eqb 91 ch = false).
    { apply N.eqb_neq. intros <-. apply Hb, Hq. left. reflexivity. }
    rewrite H91. reflexivity. }
  intros n; induction n as [|n IH]; intros q; cbn [execFrom]; rewrite Hm;
    [reflexivity | apply IH].
Qed.

(** X16.  A text with no asterisk and no opening bracket is rendered as
    it is, in one plain run. *)
Theorem FormattedText_plain (text : jsstring) :
  ~ In 42%N text -> ~ In 91%N text ->
  FormattedText text = Normal [PlainRun text].
Proof.
  intros Hs Hb. unfold FormattedText.
  assert (Hsplit : split false inlinePattern text = [Some text]).
  { unfold split. destruct text as [|c text].
    - rewrite matchAt_inlinePattern by assumption. reflexivity.
    - rewrite splitLoop_no_match; [reflexivity|].
      intros q. apply matchAt_inlinePattern; assumption. }
  rewrite Hsplit. cbn [formatParts]. unfold formatPart.
  rewrite (@exec_linkPattern text Hb).
  assert (Hst : startsWith (lit "**") text = false).
  { destruct text as [|c text]; [reflexivity|].
    assert (H42 : N.eqb 42 c = false).
    { apply N.eqb_neq. intros <-. apply Hs. left. reflexivity. }
    change (lit "**") with [42%N; 42%N]. cbn [startsWith].
    rewrite H42. reflexivity. }
  rewrite Hst. reflexivity.
Qed.

(** The witness: a sentence of plain advice. *)
Lemma FormattedText_plain_witness :
  FormattedText (lit "Drink water and rest.")
  = Normal [PlainRun (lit "Drink water and rest.")].
Proof.
  apply FormattedText_plain; vm_compute; intros H;
    repeat (destruct H as [H|H]; [discriminate H|]); exact H.
Defined.

(** The witness: a numbered heading on the only line of the text. *)
Lemma parseBotResponse_single_line_witness :
  parseBotResponse (lit "1. **Likely Condition:** rest") = Normal None.
Proof.
  apply parseBotResponse_single_line. vm_compute.
  repeat (constructor; [discriminate|]). constructor.
Defined.

Lemma trimStart_idem (s : jsstring) : trimStart (trimStart s) = trimStart s.
Proof.
  induction s as [|c t IH]; [reflexivity|]. cbn [trimStart].
  destruct (isSpace c) eqn:E; [exact IH|]. cbn [trimStart]. rewrite E. reflexivity.
Qed.

Lemma trimStart_head (s : jsstring) :
  trimStart s = [] \/ exists c t, trimStart s = c :: t /\ isSpace c = false.
Proof.
  induction s as [|c t IH]; [left; reflexivity|]. cbn [trimStart].
  destruct (isSpace c) eqn:E; [exact IH|]. right. exists c, t. split; [reflexivity | exact E].
Qed.

Lemma trimStart_snoc (l : jsstring) (c : N) :
  isSpace c = false -> exists l', trimStart (l ++ [c]) = l' ++ [c].
Proof.
  intros Hc. induction l as [|x l IH]; cbn [app trimStart].
  - rewrite Hc. exists []. reflexivity.
  - destruct (isSpace x); [exact IH|]. exists (x :: l). reflexivity.
Qed.

Lemma trimEnd_idem (s : jsstring) : trimEnd (trimEnd s) = trimEnd s.
Proof. unfold trimEnd. rewrite rev_involutive, trimStart_idem. reflexivity. Qed.

Lemma trim_idem (s : jsstring) : trim (trim s) = trim s.
Proof.
  unfold trim. destruct (trimStart_head s) as [->|(c & t & -> & Hc)]; [reflexivity|].
  assert (Hu : exists u, trimEnd (c :: t) = c :: u).
  { unfold trimEnd. cbn [rev].
    destruct (@trimStart_snoc (rev t) c Hc) as (l' & ->).
    rewrite rev_app_distr. cbn [rev app]. eexists. reflexivity. }
  destruct Hu as (u & Hu).
  assert (Hs : trimStart (trimEnd (c :: t)) = trimEnd (c :: t)).
  { rewrite Hu. cbn [trimStart]. rewrite Hc. reflexivity. }
  rewrite Hs. apply trimEnd_idem.
Qed.

Lemma sectionOfPart_wellShaped part : Forall wellShaped (sectionOfPart part).
Proof.
  unfold sectionOfPart.
  destruct (exec false titlePattern part) as [m|]; [|constructor].
  destruct (nth 0 (group m) None) as [t|]; [|constructor].
  cbv zeta. destruct (truthy t) eqn:Et; cbn [andb]; [|constructor].
  destruct (truthy (trim (substringFrom part (len (matched m))))) eqn:Ec;
    [|constructor].
  constructor; [|constructor]. unfold wellShaped. cbn [title content].
  split; [destruct t; [discriminate Et | discriminate]|].
  split; [|apply trim_idem].
  intros E. rewrite E in Ec. discriminate Ec.
Qed.

(** X18.  Whenever parseBotResponse segments a text, every section has
    a non-empty title and a non-empty content, the intro, the contents
    and the outro have no white space at either end, and the outro holds
    no section marker. *)
Theorem parsed_response_is_tidy (text : jsstring) (p : ParsedResponse) :
  parseBotResponse text = Normal (Some p) ->
  Forall wellShaped (sections p)
  /\ trim (intro p) = intro p
  /\ trim (outro p) = outro p
  /\ exec false sectionMarker (outro p) = None.
Proof.
  unfold parseBotResponse.
  destruct (exec false sectionMarker text) as [_m|]; [|discriminate].
  cbv zeta.
  match goal with
  | |- match ?im with Normal _ => _ | Throw => _ end = _ -> _ =>
      assert (Him : forall i r, im = Normal (i, r) -> trim i = i);
      [|destruct im as [[i r]|]; [specialize (Him i r eq_refl)|discriminate]]
  end.
  { intros i r. destruct (exec true introPattern text) as [m|].
    - destruct (nth 0 (group m) None) as [g1|]; [|discriminate].
      intros H. injection H as <- _. apply trim_idem.
    - intros H. injection H as <- _. reflexivity. }
  destruct (filterNonBlank (split false partsPattern r)) as [parts|];
    [|discriminate].
  intros H. injection H as <-. cbn [sections intro outro].
  split.
  { apply Forall_flat_map, Forall_forall. intros part _.
    apply sectionOfPart_wellShaped. }
  split; [exact Him|].
  destruct (Z.ltb (-1) _); [|split; reflexivity].
  destruct (truthy _); cbn [andb]; [|split; reflexivity].
  match goal with
  | |- context [exec false sectionMarker ?o] =>
      destruct (exec false sectionMarker o) eqn:Eo
  end; cbn [negb].
  - split; reflexivity.
  - split; [apply trim_idem | exact Eo].
Qed.

(** The witness: an intro followed by one section. *)
Lemma parsed_response_is_tidy_witness :
  let p := mkParsed (lit "Intro") [mkSection (lit "A") (lit "b")] [] in
  Forall wellShaped (sections p)
  /\ trim (intro p) = intro p
  /\ trim (outro p) = outro p
  /\ exec false sectionMarker (outro p) = None.
Proof.
  intros p.
  apply (@parsed_response_is_tidy (lit "Intro" ++ LF :: lit "1. **A:** b") p).
  vm_compute. reflexivity.
Defined.

End RenderingFacts.
